(** * SumVid Learn: the quota gate, the generated-content cache, the quiz
      navigator and the flashcard parser, embedded from the JavaScript sources.

    - [backend/routes/api.js]: the quota gate and the handlers of
      [/api/summarize] and [/api/flashcards] ([Api]); two requests running the
      gate at once ([Race]); the handler of [/api/quiz] ([QuizApi]).
    - [Source/ContentGenerator.js]: the generated-content cache ([Cache]), its
      sweep at start-up ([Sweep]) and the generation of summaries and quizzes
      that goes through it ([Generator]).
    - [Source/QuizUIController.js], [sidebar.js]: quiz navigation and scoring
      ([Quiz], [QuizUi]); sending a message with retries ([Messaging]).
    - What the code takes from the platform: string helpers ([Js]) and
      [JSON.parse] ([Json]).

    The definitions come first, the properties after them.

    JavaScript strings are modelled as [string] (ASCII text), numbers that the
    code only uses as integers (counters, millisecond timestamps, indices) as
    [Z], [undefined]/[null] as [None], objects used as dictionaries as [gmap]. *)

From Stdlib Require Import ZArith Lia Ascii String List Bool.
From stdpp Require Import base option list gmap strings pretty.

Set Warnings "-register-all".

Local Open Scope string_scope.
Local Open Scope Z_scope.

(** ** JavaScript helpers shared by the modules *)

Module Js.

(** Truthiness of a value that is a string or [undefined]/[null]. *)
Definition truthy (v : option string) : bool :=
  match v with
  | Some s => negb (String.eqb s "")
  | None => false
  end.

(** [a || b] on such values. *)
Definition or_else (a b : option string) : option string :=
  if truthy a then a else b.

(** [a || 'literal']. *)
Definition or_default (a : option string) (d : string) : string :=
  match a with
  | Some s => if String.eqb s "" then d else s
  | None => d
  end.

(** [\s] restricted to ASCII: space, TAB, LF, VT, FF, CR. *)
Definition is_space (c : ascii) : bool :=
  let n := nat_of_ascii c in
  (Nat.eqb n 32 || (Nat.leb 9 n && Nat.leb n 13))%bool.

(** [\d]. *)
Definition is_digit (c : ascii) : bool :=
  let n := nat_of_ascii c in
  (Nat.leb 48 n && Nat.leb n 57)%bool.

(** [s.replace(/\s+/g, ' ')]: every maximal run of white space becomes one
    space.  [in_run] tells whether the previous character was white space. *)
Fixpoint collapse_go (in_run : bool) (l : list ascii) : list ascii :=
  match l with
  | [] => []
  | c :: t =>
      if is_space c
      then (if in_run then collapse_go true t else " "%char :: collapse_go true t)
      else c :: collapse_go false t
  end.

Definition collapse_spaces (l : list ascii) : list ascii := collapse_go false l.

Fixpoint trim_start (l : list ascii) : list ascii :=
  match l with
  | c :: t => if is_space c then trim_start t else l
  | [] => []
  end.

(** [s.trim()]. *)
Definition trim_chars (l : list ascii) : list ascii :=
  rev (trim_start (rev (trim_start l))).

Definition trim (s : string) : string :=
  string_of_list_ascii (trim_chars (list_ascii_of_string s)).

(** Length of the longest prefix of digits. *)
Fixpoint digits_len (l : list ascii) : nat :=
  match l with
  | c :: t => if is_digit c then S (digits_len t) else O
  | [] => O
  end.

(** Length of a match of [/\[\d+:\d+\]/] anchored at the head of [l]. *)
Definition timestamp_len (l : list ascii) : option nat :=
  match l with
  | "["%char :: t =>
      let a := digits_len t in
      match a, drop a t with
      | S _, ":"%char :: t' =>
          let b := digits_len t' in
          match b, drop b t' with
          | S _, "]"%char :: _ => Some (1 + a + 1 + b + 1)%nat
          | _, _ => None
          end
      | _, _ => None
      end
  | _ => None
  end.

(** [s.replace(/\[\d+:\d+\]/g, '')]: [skip] counts the characters of the
    current match that are still to be dropped. *)
Fixpoint strip_go (skip : nat) (l : list ascii) : list ascii :=
  match l with
  | [] => []
  | c :: t =>
      match skip with
      | S k => strip_go k t
      | O =>
          match timestamp_len l with
          | Some (S k) => strip_go k t
          | _ => c :: strip_go O t
          end
      end
  end.

Definition strip_timestamps (l : list ascii) : list ascii := strip_go O l.

(** The quotation mark, and a way to write texts that contain it: [qq]
    turns every apostrophe of its argument into a quotation mark. *)
Definition dquote : ascii := ascii_of_nat 34.

Definition qq_chars (l : list ascii) : list ascii :=
  map (fun c => if Ascii.eqb c "'" then dquote else c) l.

Definition qq (s : string) : string :=
  string_of_list_ascii (qq_chars (list_ascii_of_string s)).

(** [s.substring(0, n)]. *)
Definition substring0 (n : nat) (s : string) : string :=
  string_of_list_ascii (take n (list_ascii_of_string s)).

End Js.

(** ** [JSON.parse], as far as the flashcard handler needs it *)

Module Json.

(** A parsed JSON text.  String values and keys are sequences of UTF-16 code
    units (an escape [\uXXXX] can name any of them); a number keeps its
    lexeme. *)
Inductive value :=
| Null
| Bool (b : bool)
| Num (lexeme : list ascii)
| Str (units : list N)
| Arr (items : list value)
| Obj (members : list (list N * value)).

Inductive result (A : Type) :=
| Ok (a : A)
| SyntaxError
| OutOfFuel.
Arguments Ok {A} a.
Arguments SyntaxError {A}.
Arguments OutOfFuel {A}.

Definition units_of_chars (l : list ascii) : list N := map N_of_ascii l.

Definition units_of_string (s : string) : list N :=
  units_of_chars (list_ascii_of_string s).

(** JSON white space: space, TAB, LF, CR. *)
Definition is_ws (c : ascii) : bool :=
  let n := nat_of_ascii c in
  (Nat.eqb n 32 || Nat.eqb n 9 || Nat.eqb n 10 || Nat.eqb n 13)%bool.

Fixpoint skip_ws (l : list ascii) : list ascii :=
  match l with
  | c :: t => if is_ws c then skip_ws t else l
  | [] => []
  end.

Definition hex_digit (c : ascii) : option N :=
  let n := N_of_ascii c in
  if ((48 <=? n) && (n <=? 57))%N then Some (n - 48)%N
  else if ((65 <=? n) && (n <=? 70))%N then Some (n - 55)%N
  else if ((97 <=? n) && (n <=? 102))%N then Some (n - 87)%N
  else None.

(** The code unit named by the character after a backslash, [\u] apart. *)
Definition simple_escape (e : ascii) : option N :=
  let n := N_of_ascii e in
  if (n =? 34)%N then Some 34%N          (* quotation mark *)
  else if (n =? 92)%N then Some 92%N     (* backslash *)
  else if (n =? 47)%N then Some 47%N     (* slash *)
  else if (n =? 98)%N then Some 8%N      (* b: backspace *)
  else if (n =? 102)%N then Some 12%N    (* f: form feed *)
  else if (n =? 110)%N then Some 10%N    (* n: line feed *)
  else if (n =? 114)%N then Some 13%N    (* r: carriage return *)
  else if (n =? 116)%N then Some 9%N     (* t: tab *)
  else None.

(** The characters of a string literal after its opening quote, up to and
    including the closing quote; [acc] holds the units read so far, last
    first. *)
Fixpoint parse_string (l : list ascii) (acc : list N)
  : option (list N * list ascii) :=
  match l with
  | [] => None
  | c :: t =>
      if (N_of_ascii c =? 34)%N then Some (rev acc, t)
      else if (N_of_ascii c =? 92)%N then
        match t with
        | e :: t' =>
            if (N_of_ascii e =? 117)%N then
              match t' with
              | h1 :: h2 :: h3 :: h4 :: t'' =>
                  match hex_digit h1, hex_digit h2, hex_digit h3, hex_digit h4 with
                  | Some a, Some b, Some c', Some d =>
                      parse_string t'' ((((a * 16 + b) * 16 + c') * 16 + d)%N :: acc)
                  | _, _, _, _ => None
                  end
              | _ => None
              end
            else
              match simple_escape e with
              | Some u => parse_string t' (u :: acc)
              | None => None
              end
        | [] => None
        end
      else if (N_of_ascii c <? 32)%N then None
      else parse_string t (N_of_ascii c :: acc)
  end.

(** A number: an optional minus sign; 0, or a digit from 1 to 9 and more
    digits; optionally a point and digits; optionally e or E, a sign and
    digits.  Each part returns its lexeme and the rest. *)
Definition sign_part (l : list ascii) : list ascii * list ascii :=
  match l with
  | c :: t => if Ascii.eqb c "-" then ([c], t) else ([], l)
  | [] => ([], l)
  end.

Definition digits_part (l : list ascii) : option (list ascii * list ascii) :=
  match Js.digits_len l with
  | O => None
  | S _ as k => Some (take k l, drop k l)
  end.

Definition int_part (l : list ascii) : option (list ascii * list ascii) :=
  match l with
  | c :: t => if Ascii.eqb c "0" then Some ([c], t) else digits_part l
  | [] => None
  end.

Definition frac_part (l : list ascii) : option (list ascii * list ascii) :=
  match l with
  | c :: t =>
      if Ascii.eqb c "." then
        match digits_part t with
        | Some (digits, r) => Some (c :: digits, r)
        | None => None
        end
      else Some ([], l)
  | [] => Some ([], l)
  end.

Definition exp_sign_part (l : list ascii) : list ascii * list ascii :=
  match l with
  | c :: t =>
      if (Ascii.eqb c "+" || Ascii.eqb c "-")%bool then ([c], t) else ([], l)
  | [] => ([], l)
  end.

Definition exp_part (l : list ascii) : option (list ascii * list ascii) :=
  match l with
  | e :: t =>
      if (Ascii.eqb e "e" || Ascii.eqb e "E")%bool then
        let '(esign, t') := exp_sign_part t in
        match digits_part t' with
        | Some (digits, r) => Some ((e :: esign ++ digits)%list, r)
        | None => None
        end
      else Some ([], l)
  | [] => Some ([], l)
  end.

Definition parse_number (l : list ascii) : option (list ascii * list ascii) :=
  let '(sign, l1) := sign_part l in
  match int_part l1 with
  | None => None
  | Some (int, l2) =>
      match frac_part l2 with
      | None => None
      | Some (frac, l3) =>
          match exp_part l3 with
          | None => None
          | Some (ex, l4) => Some ((sign ++ int ++ frac ++ ex)%list, l4)
          end
      end
  end.

(** What is left of [l] after the prefix [p], if [l] starts with it. *)
Fixpoint strip_prefix (p l : list ascii) : option (list ascii) :=
  match p, l with
  | [], _ => Some l
  | a :: p', b :: l' => if Ascii.eqb a b then strip_prefix p' l' else None
  | _ :: _, [] => None
  end.

(** The literals [null], [true], [false], or else a number. *)
Definition parse_scalar (l : list ascii) : option (value * list ascii) :=
  match strip_prefix (list_ascii_of_string "null") l with
  | Some r => Some (Null, r)
  | None =>
      match strip_prefix (list_ascii_of_string "true") l with
      | Some r => Some (Bool true, r)
      | None =>
          match strip_prefix (list_ascii_of_string "false") l with
          | Some r => Some (Bool false, r)
          | None =>
              match parse_number l with
              | Some (lex, r) => Some (Num lex, r)
              | None => None
              end
          end
      end
  end.

(** Whether [l], white space skipped, starts with the character [c]; the
    rest after it. *)
Definition expect (c : ascii) (l : list ascii) : option (list ascii) :=
  match skip_ws l with
  | d :: r => if Ascii.eqb d c then Some r else None
  | [] => None
  end.

(** Recursive descent.  [parse_value] reads one value after optional white
    space; [parse_elements] reads the comma-separated values and the
    closing bracket of an array, [parse_members] the comma-separated
    members and the closing brace of an object.  Every call spends one unit
    of fuel. *)
Fixpoint parse_value (fuel : nat) (l : list ascii) {struct fuel}
  : result (value * list ascii) :=
  match fuel with
  | O => OutOfFuel
  | S fuel' =>
      match skip_ws l with
      | [] => SyntaxError
      | c :: t =>
          if Ascii.eqb c "[" then
            match expect "]" t with
            | Some r => Ok (Arr [], r)
            | None => parse_elements fuel' t []
            end
          else if Ascii.eqb c "{" then
            match expect "}" t with
            | Some r => Ok (Obj [], r)
            | None => parse_members fuel' t []
            end
          else if Ascii.eqb c Js.dquote then
            match parse_string t [] with
            | Some (s, r) => Ok (Str s, r)
            | None => SyntaxError
            end
          else
            match parse_scalar (c :: t) with
            | Some (v, r) => Ok (v, r)
            | None => SyntaxError
            end
      end
  end
with parse_elements (fuel : nat) (l : list ascii) (acc : list value) {struct fuel}
  : result (value * list ascii) :=
  match fuel with
  | O => OutOfFuel
  | S fuel' =>
      match parse_value fuel' l with
      | Ok (v, r) =>
          match expect "," r with
          | Some r' => parse_elements fuel' r' (acc ++ [v])%list
          | None =>
              match expect "]" r with
              | Some r' => Ok (Arr (acc ++ [v])%list, r')
              | None => SyntaxError
              end
          end
      | SyntaxError => SyntaxError
      | OutOfFuel => OutOfFuel
      end
  end
with parse_members (fuel : nat) (l : list ascii) (acc : list (list N * value))
    {struct fuel} : result (value * list ascii) :=
  match fuel with
  | O => OutOfFuel
  | S fuel' =>
      match expect Js.dquote l with
      | None => SyntaxError
      | Some t =>
          match parse_string t [] with
          | None => SyntaxError
          | Some (k, r) =>
              match expect ":" r with
              | None => SyntaxError
              | Some r' =>
                  match parse_value fuel' r' with
                  | Ok (v, r'') =>
                      match expect "," r'' with
                      | Some r3 => parse_members fuel' r3 (acc ++ [(k, v)])%list
                      | None =>
                          match expect "}" r'' with
                          | Some r3 => Ok (Obj (acc ++ [(k, v)])%list, r3)
                          | None => SyntaxError
                          end
                      end
                  | SyntaxError => SyntaxError
                  | OutOfFuel => OutOfFuel
                  end
              end
          end
      end
  end.

(** The whole text must be one value, white space around it allowed. *)
Definition parse_text (l : list ascii) : result value :=
  match parse_value (2 * length l + 2) l with
  | Ok (v, r) =>
      match skip_ws r with
      | [] => Ok v
      | _ => SyntaxError
      end
  | SyntaxError => SyntaxError
  | OutOfFuel => OutOfFuel
  end.

(** [JSON.parse(text)]: [None] stands for the thrown [SyntaxError]. *)
Definition parse (l : list ascii) : option value :=
  match parse_text l with
  | Ok v => Some v
  | _ => None
  end.

(** The digits of [l] read as a decimal number. *)
Definition digits_value (l : list ascii) : Z :=
  foldl (fun n c => 10 * n + (Z.of_nat (nat_of_ascii c) - 48)) 0 l.

(** A number lexeme read as [m * 10 ^ e], its sign aside: [m] is made of
    the digits before and after the point, [e] is the exponent less the
    number of digits after the point. *)
Definition decimal_of (lex : list ascii) : Z * Z :=
  let '(_, l1) := sign_part lex in
  let int := take (Js.digits_len l1) l1 in
  let l2 := drop (Js.digits_len l1) l1 in
  let '(frac, l3) :=
    match l2 with
    | c :: t =>
        if Ascii.eqb c "."
        then (take (Js.digits_len t) t, drop (Js.digits_len t) t)
        else ([], l2)
    | [] => ([], l2)
    end in
  let ex :=
    match l3 with
    | c :: t =>
        if (Ascii.eqb c "e" || Ascii.eqb c "E")%bool then
          let '(esign, t') := exp_sign_part t in
          let n := digits_value (take (Js.digits_len t') t') in
          match esign with
          | sign :: _ => if Ascii.eqb sign "-" then - n else n
          | [] => n
          end
        else 0
    | [] => 0
    end in
  (digits_value (int ++ frac)%list, ex - Z.of_nat (length frac)).

(** Whether the Number that a lexeme denotes is zero.  The Number is the
    double nearest to the decimal value, ties going to the even one, so it is
    zero when the value is 0 or at most [2 ^ -1075] in magnitude, half the
    least positive double.  A value too large for a double is [Infinity],
    which is not zero. *)
Definition rounds_to_zero (lex : list ascii) : bool :=
  let '(m, e) := decimal_of lex in
  ((m =? 0) || ((e <? 0) && (m * 2 ^ 1075 <=? 10 ^ (- e))))%bool.

(** JavaScript truthiness of a parsed value ([None] is [undefined]). *)
Definition truthy (v : option value) : bool :=
  match v with
  | None | Some Null => false
  | Some (Bool b) => b
  | Some (Num lex) => negb (rounds_to_zero lex)
  | Some (Str s) => match s with [] => false | _ => true end
  | Some (Arr _) | Some (Obj _) => true
  end.

Definition units_eqb (a b : list N) : bool :=
  bool_decide (a = b).

(** Own property [key] of a parsed object: the last member of that name. *)
Fixpoint lookup_member (key : list N) (members : list (list N * value))
  : option value :=
  match members with
  | [] => None
  | (k, v) :: rest =>
      match lookup_member key rest with
      | Some v' => Some v'
      | None => if units_eqb k key then Some v else None
      end
  end.

(** [v.key] for one of the keys the handler reads ([question], [front],
    [answer], [back]): only an object can have it. *)
Definition get (key : string) (v : value) : option value :=
  match v with
  | Obj members => lookup_member (units_of_string key) members
  | _ => None
  end.

(** [a || b]. *)
Definition or_else (a b : option value) : option value :=
  if truthy a then a else b.

End Json.

(** ** The backend: usage rows, the quota gate and the handlers *)

Module Api.

Inductive SubscriptionStatus := freemium | premium.

(** The columns of a [users] row that the handlers and the usage module
    touch. *)
Record UserRow := mkUserRow {
  enhancements_used : Z;
  enhancements_limit : Z;
  last_reset_at : Z;
  subscription_status : SubscriptionStatus
}.

(** What the handlers do to the outside world, in order. *)
Inductive Event :=
| EvIncrement (userId : Z)
| EvProviderCall (userMessage : string).

(** The [users] table keyed by id, and the log of effects. *)
Record World := mkWorld {
  users : gmap Z UserRow;
  trace : list Event
}.

Record Counters := mkCounters {
  enhancementsUsed : Z;
  enhancementsLimit : Z
}.

Definition counters_of (u : UserRow) : Counters :=
  {| enhancementsUsed := enhancements_used u;
     enhancementsLimit := enhancements_limit u |}.

Inductive UsageError := QuotaExceeded | NotFound.

Record IncrementResult := mkIncrementResult {
  success : bool;
  error : option UsageError;
  usage : option Counters
}.

Definition DAY_MS : Z := 24 * 60 * 60 * 1000.

(** Modelled from the spec: [config/usage.js] (imported by [api.js]) is not
    among the sources.  Section 4.1, resetIfNeeded: if
    [now - lastResetAt >= 24h], sets [enhancementsUsed = 0] and
    [lastResetAt = now]; otherwise no-op. *)
Definition reset_row (now : Z) (u : UserRow) : UserRow :=
  if DAY_MS <=? now - last_reset_at u
  then {| enhancements_used := 0;
          enhancements_limit := enhancements_limit u;
          last_reset_at := now;
          subscription_status := subscription_status u |}
  else u.

(** Modelled from the spec: [resetDailyUsageIfNeeded] of [config/usage.js],
    which is not among the sources, is section 4.1's resetIfNeeded applied to
    the row of the user; there is nothing to do when the user has no row. *)
Definition resetDailyUsageIfNeeded (now userId : Z) (w : World) : World :=
  {| users := alter (reset_row now) userId (users w); trace := trace w |}.

(** Modelled from the spec: [config/usage.js] is not among the sources.
    Section 4.1, incrementIfAllowed: atomically checks
    [enhancementsUsed < enhancementsLimit] (skipped entirely for premium
    users, who always succeed) and, if allowed, increments
    [enhancementsUsed] by 1, returning the post-increment counters; otherwise
    fails with QuotaExceeded and returns the current (unchanged) counters. *)
Definition allowed (u : UserRow) : bool :=
  match subscription_status u with
  | premium => true
  | freemium => enhancements_used u <? enhancements_limit u
  end.

(** Modelled from the spec: the increment of section 4.1,
    [enhancementsUsed] plus one and nothing else changed ([config/usage.js] is
    not among the sources). *)
Definition bump (u : UserRow) : UserRow :=
  {| enhancements_used := enhancements_used u + 1;
     enhancements_limit := enhancements_limit u;
     last_reset_at := last_reset_at u;
     subscription_status := subscription_status u |}.

(** Modelled from the spec: [incrementUsage] of [config/usage.js], which is
    not among the sources, is section 4.1's incrementIfAllowed, one atomic
    step on the table.  The shape of its result, [{success, error, usage}], is
    the one the handlers of [api.js] read. *)
Definition incrementUsage (userId : Z) (w : World) : IncrementResult * World :=
  match users w !! userId with
  | None =>
      ({| success := false; error := Some NotFound; usage := None |}, w)
  | Some u =>
      if allowed u
      then ({| success := true; error := None;
               usage := Some (counters_of (bump u)) |},
            {| users := <[userId := bump u]> (users w);
               trace := trace w ++ [EvIncrement userId] |})
      else ({| success := false; error := Some QuotaExceeded;
               usage := Some (counters_of u) |}, w)
  end.

(** *** Responses *)

Record UsageReport := mkUsageReport {
  rep_used : Z;
  rep_limit : Z;
  rep_remaining : Z
}.

(** A flashcard as the handler returns it: [{question, answer}]. *)
Record Card := mkCard {
  question : Json.value;
  answer : Json.value
}.

Inductive Response :=
| Res400 (msg : string)
| Res404 (msg : string)
| Res403Limit (msg : string) (used limit : Z)
| Res403Increment (err : option UsageError) (usage : option Counters)
| Res500 (msg : string)
| Res200Summary (summary contentType : string) (usage : UsageReport)
| Res200Flashcards (flashcards : list Card) (contentType : string)
    (usage : UsageReport).

Definition status (r : Response) : Z :=
  match r with
  | Res400 _ => 400
  | Res404 _ => 404
  | Res403Limit _ _ _ | Res403Increment _ _ => 403
  | Res500 _ => 500
  | Res200Summary _ _ _ | Res200Flashcards _ _ _ => 200
  end.

(** *** Handler bodies: state passing with early return

    A handler step either answers the request ([inl], the source's
    [return res.status(...).json(...)]) or goes on with a value ([inr]). *)
Definition Handler (A : Type) : Type := World -> (Response + A) * World.

Definition ret {A} (a : A) : Handler A := fun w => (inr a, w).

Definition respond {A} (r : Response) : Handler A := fun w => (inl r, w).

Definition bind {A B} (m : Handler A) (k : A -> Handler B) : Handler B :=
  fun w =>
    match m w with
    | (inl r, w') => (inl r, w')
    | (inr a, w') => k a w'
    end.

Definition get_world : Handler World := fun w => (inr w, w).

Definition lift {A} (f : World -> A * World) : Handler A :=
  fun w => let '(a, w') := f w in (inr a, w').

Definition modify (f : World -> World) : Handler unit :=
  fun w => (inr tt, f w).

Declare Scope handler_scope.
Delimit Scope handler_scope with handler.
Notation "'do' x <- m 'in' k" := (bind m (fun x => k))
  (at level 10, x name, m at level 100, k at level 200) : handler_scope.
Notation "'exec' m 'in' k" := (bind m (fun _ => k))
  (at level 10, m at level 100, k at level 200) : handler_scope.
Local Open Scope handler_scope.

(** [query('SELECT enhancements_used, enhancements_limit FROM users WHERE
    id = $1')]: the row, if there is one. *)
Definition selectUsage (userId : Z) : Handler (option UserRow) :=
  do w <- get_world in ret (users w !! userId).

(** api.js 77-102, repeated verbatim in every generation handler: read the
    counters, answer 404 or 403, otherwise call [incrementUsage].  This is
    the check-then-increment that a request performs. *)
Definition incrementIfAllowed (userId : Z) : Handler unit :=
  do row <- selectUsage userId in
  match row with
  | None => respond (Res404 "User not found")
  | Some user =>
      if enhancements_limit user <=? enhancements_used user
      then respond (Res403Limit "Daily enhancement limit reached"
                      (enhancements_used user) (enhancements_limit user))
      else
        do incrementResult <- lift (incrementUsage userId) in
        if success incrementResult
        then ret tt
        else respond (Res403Increment (error incrementResult)
                        (usage incrementResult))
  end.

(** api.js 75-102: "Check usage limit before generation". *)
Definition quotaGate (now userId : Z) : Handler unit :=
  exec modify (resetDailyUsageIfNeeded now userId) in
  incrementIfAllowed userId.

(** *** POST /api/summarize *)

Record SummarizeBody := mkSummarizeBody {
  transcript : option string;
  text : option string;
  content : option string;
  context : option string;
  title : option string;
  contentType : option string
}.

Definition validContentTypes : list string := ["video"; "webpage"; "pdf"].

Definition includes (l : list string) (s : string) : bool :=
  existsb (String.eqb s) l.

(** api.js 104-112. *)
Definition cleanContent (type contentText : string) : string :=
  let chars := list_ascii_of_string contentText in
  if String.eqb type "video"
  then string_of_list_ascii
         (Js.trim_chars (Js.collapse_spaces (Js.strip_timestamps chars)))
  else string_of_list_ascii (Js.trim_chars (Js.collapse_spaces chars)).

(** What [callOpenAI] is given.  The system prompt is built from the first
    three fields; the user message is the cleaned content. *)
Record ProviderRequest := mkProviderRequest {
  pr_type : string;
  pr_title : option string;
  pr_context : option string;
  pr_content : string
}.

(** [callOpenAI] either returns the completion or throws an [Error] whose
    message is given. *)
Definition Provider : Type := ProviderRequest -> string + string.

Definition callOpenAI (provider : Provider) (req : ProviderRequest)
  : Handler (string + string) :=
  fun w =>
    (inr (provider req),
     {| users := users w; trace := trace w ++ [EvProviderCall (pr_content req)] |}).

Definition report (u : UserRow) : UsageReport :=
  {| rep_used := enhancements_used u;
     rep_limit := enhancements_limit u;
     rep_remaining := Z.max 0 (enhancements_limit u - enhancements_used u) |}.

(** api.js 56-174.  A thrown error is caught by the handler's [catch] and
    answered with 500 and [error.message || 'Failed to generate summary']. *)
Definition summarize_body (now userId : Z) (body : SummarizeBody)
    (provider : Provider) : Handler Response :=
  let type := Js.or_default (contentType body) "video" in
  if negb (includes validContentTypes type)
  then respond (Res400 "Invalid contentType. Must be one of: video, webpage, pdf")
  else
    match Js.or_else (Js.or_else (transcript body) (text body)) (content body) with
    | None => respond (Res400 "Content text is required")
    | Some contentText =>
        if String.eqb contentText ""
        then respond (Res400 "Content text is required")
        else
          exec quotaGate now userId in
          let clean := cleanContent type contentText in
          if (Z.of_nat (String.length clean) <? 10)
          then respond (Res400 "Content is too short or empty")
          else
            do result <- callOpenAI provider
                        {| pr_type := type; pr_title := title body;
                           pr_context := context body; pr_content := clean |} in
            match result with
            | inr message =>
                respond (Res500 (Js.or_default (Some message)
                                   "Failed to generate summary"))
            | inl summary =>
                do updated <- selectUsage userId in
                match updated with
                | None =>
                    respond (Res500 "Cannot read properties of undefined (reading 'enhancements_used')")
                | Some updatedUsage =>
                    ret (Res200Summary summary type (report updatedUsage))
                end
            end
    end.

Definition run (h : Handler Response) (w : World) : Response * World :=
  match h w with
  | (inl r, w') => (r, w')
  | (inr r, w') => (r, w')
  end.

Definition summarize (now userId : Z) (body : SummarizeBody)
    (provider : Provider) (w : World) : Response * World :=
  run (summarize_body now userId body provider) w.

(** *** POST /api/flashcards *)

Record FlashcardsBody := mkFlashcardsBody {
  fc_contentType : option string;
  fc_transcript : option string;
  fc_text : option string;
  fc_title : option string
}.

(** [response.match(/\[[\s\S]*\]/)]: the span from the first opening bracket
    to the last closing bracket after it, if there is one. *)
Fixpoint from_first_open (l : list ascii) : option (list ascii) :=
  match l with
  | [] => None
  | c :: t => if Ascii.eqb c "[" then Some l else from_first_open t
  end.

Fixpoint drop_to_close (l : list ascii) : option (list ascii) :=
  match l with
  | [] => None
  | c :: t => if Ascii.eqb c "]" then Some l else drop_to_close t
  end.

Definition jsonMatch (response : list ascii) : option (list ascii) :=
  match from_first_open response with
  | Some (open :: rest) =>
      match drop_to_close (rev rest) with
      | Some kept => Some (open :: rev kept)
      | None => None
      end
  | _ => None
  end.

(** [response.split('\n')]. *)
Fixpoint split_lines (l : list ascii) (cur : list ascii) : list (list ascii) :=
  match l with
  | [] => [rev cur]
  | c :: t =>
      if (N_of_ascii c =? 10)%N
      then rev cur :: split_lines t []
      else split_lines t (c :: cur)
  end.

Definition fallback_card (index : nat) (line : list ascii) : Json.value :=
  Json.Obj
    [(Json.units_of_string "question",
      Json.Str (Json.units_of_string ("Question " +:+ pretty (S index))));
     (Json.units_of_string "answer",
      Json.Str (Json.units_of_chars (Js.trim_chars line)))].

(** api.js 731-736: the non-blank lines, the first ten of them numbered. *)
Definition fallback_cards (response : list ascii) : Json.value :=
  let lines :=
    filter (fun line => Js.trim_chars line <> []) (split_lines response []) in
  Json.Arr (imap fallback_card (take 10 lines)).

(** api.js 720-737: the [try] block and its [catch]. *)
Definition parse_flashcards (response : list ascii) : Json.value :=
  let attempt :=
    match jsonMatch response with
    | Some span => Json.parse span
    | None => Json.parse response
    end in
  match attempt with
  | Some flashcards => flashcards
  | None => fallback_cards response
  end.

Definition valid_card (card : Json.value) : bool :=
  (Json.truthy (Some card)
   && Json.truthy (Json.or_else (Json.get "question" card) (Json.get "front" card))
   && Json.truthy (Json.or_else (Json.get "answer" card) (Json.get "back" card)))%bool.

Definition or_empty (v : option Json.value) : Json.value :=
  match Json.or_else v (Some (Json.Str [])) with
  | Some x => x
  | None => Json.Str []
  end.

Definition normalize_card (card : Json.value) : Card :=
  {| question :=
       or_empty (Json.or_else (Json.get "question" card) (Json.get "front" card));
     answer :=
       or_empty (Json.or_else (Json.get "answer" card) (Json.get "back" card)) |}.

(** api.js 739-750. *)
Definition validate_flashcards (flashcards : Json.value) : list Card :=
  let items :=
    match flashcards with
    | Json.Arr items => items
    | _ => []
    end in
  take 10 (map normalize_card (filter (fun card => valid_card card = true) items)).

(** api.js 719-750: from the provider's reply to the cards sent back. *)
Definition flashcards_of_response (response : string) : list Card :=
  validate_flashcards (parse_flashcards (list_ascii_of_string response)).

(** The text handed to [JSON.parse]: the bracketed span when the pattern
    matches, the whole reply otherwise. *)
Definition json_candidate (response : list ascii) : list ascii :=
match jsonMatch response with
| Some span => span
| None => response
end.

(** The card that the fallback makes of a line, as it is sent back. *)
Definition naive_card (index : nat) (line : list ascii) : Card :=
{| question := Json.Str (Json.units_of_string ("Question " +:+ pretty (S index)));
   answer := Json.Str (Json.units_of_chars (Js.trim_chars line)) |}.

(** The first ten non-blank lines of a reply as numbered cards. *)
Definition naive_cards (response : list ascii) : list Card :=
imap naive_card
  (take 10 (filter (fun line => Js.trim_chars line <> []) (split_lines response []))).

(** api.js 679-690. *)
Definition cleanFlashcardContent (type contentText : string) : string :=
  Js.substring0 4000 (cleanContent type contentText).

(** api.js 637-772. *)
Definition flashcards_body (now userId : Z) (body : FlashcardsBody)
    (provider : Provider) : Handler Response :=
  let type := Js.or_default (fc_contentType body) "video" in
  let contentText :=
    if String.eqb type "video"
    then Js.or_default (fc_transcript body) ""
    else Js.or_default (fc_text body) "" in
  if String.eqb contentText ""
  then respond (Res400 "Content text is required")
  else
    exec quotaGate now userId in
    let clean := cleanFlashcardContent type contentText in
    if (Z.of_nat (String.length clean) <? 50)
    then respond (Res400 "Content is too short to generate flashcards")
    else
      do result <- callOpenAI provider
                     {| pr_type := type; pr_title := fc_title body;
                        pr_context := None; pr_content := clean |} in
      match result with
      | inr message =>
          respond (Res500 (Js.or_default (Some message)
                             "Failed to generate flashcards"))
      | inl response =>
          let flashcards := flashcards_of_response response in
          do updated <- selectUsage userId in
          match updated with
          | None =>
              respond (Res500 "Cannot read properties of undefined (reading 'enhancements_used')")
          | Some updatedUsage =>
              ret (Res200Flashcards flashcards type (report updatedUsage))
          end
      end.

Definition flashcards (now userId : Z) (body : FlashcardsBody)
    (provider : Provider) (w : World) : Response * World :=
  run (flashcards_body now userId body provider) w.

(** A body that gets past the two checks made before the gate: its content
    type is a known one and it carries a non-empty content text. *)
Definition accepted (body : SummarizeBody) (type contentText : string) : Prop :=
  type = Js.or_default (contentType body) "video"
  /\ includes validContentTypes type = true
  /\ Js.or_else (Js.or_else (transcript body) (text body)) (content body)
     = Some contentText
  /\ contentText <> "".

(** Whether a response reports success. *)
Definition succeeded (r : Response) : bool := status r =? 200.

(** The row [u] with its counter set to [used]. *)
Definition with_used (used : Z) (u : UserRow) : UserRow :=
  {| enhancements_used := used;
     enhancements_limit := enhancements_limit u;
     last_reset_at := last_reset_at u;
     subscription_status := subscription_status u |}.

(** [n] requests of one user, one after the other: what the gate answered to
    each, and the world after the last. *)
Fixpoint gate_times (n : nat) (userId : Z) (w : World)
  : list (Response + unit) * World :=
  match n with
  | O => ([], w)
  | S n' =>
      let '(a, w1) := incrementIfAllowed userId w in
      let '(rest, w2) := gate_times n' userId w1 in
      (a :: rest, w2)
  end.

End Api.




(** ** Two requests at once: the steps of the quota gate interleaved *)

Module Race.
Import Api.

Inductive GateOutcome :=
| Passed
| Rejected (r : Response).

(** Where a request stands inside api.js 75-102.  Each [await] on the
    database is one step: [resetDailyUsageIfNeeded], the SELECT, then (after
    the local comparison of the row that was read) [incrementUsage]. *)
Inductive Thread :=
| TStart
| TReset
| TSelected (row : option UserRow)
| TDone (outcome : GateOutcome).

(** One step of the request received at time [now]. *)
Definition thread_step (now userId : Z) (t : Thread) (w : World) : Thread * World :=
  match t with
  | TStart => (TReset, resetDailyUsageIfNeeded now userId w)
  | TReset => (TSelected (users w !! userId), w)
  | TSelected None => (TDone (Rejected (Res404 "User not found")), w)
  | TSelected (Some user) =>
      if enhancements_limit user <=? enhancements_used user
      then (TDone (Rejected (Res403Limit "Daily enhancement limit reached"
                               (enhancements_used user) (enhancements_limit user))), w)
      else
        let '(incrementResult, w') := incrementUsage userId w in
        if success incrementResult
        then (TDone Passed, w')
        else (TDone (Rejected (Res403Increment (error incrementResult)
                                 (usage incrementResult))), w')
  | TDone o => (TDone o, w)
  end.

(** Two requests of the same user, received at [now1] and [now2], and the
    database they share. *)
Record System := mkSystem {
  world : World;
  first : Thread;
  second : Thread
}.

Inductive Turn := RunFirst | RunSecond.

Definition system_step (now1 now2 userId : Z) (turn : Turn) (s : System) : System :=
  match turn with
  | RunFirst =>
      let '(t, w) := thread_step now1 userId (first s) (world s) in
      {| world := w; first := t; second := second s |}
  | RunSecond =>
      let '(t, w) := thread_step now2 userId (second s) (world s) in
      {| world := w; first := first s; second := t |}
  end.

(** The requests run as the event loop schedules them. *)
Definition run_schedule (now1 now2 userId : Z) (schedule : list Turn) (s : System)
  : System :=
  foldl (fun s turn => system_step now1 now2 userId turn s) s schedule.

Definition start (w : World) : System :=
  {| world := w; first := TStart; second := TStart |}.

Definition is_first (turn : Turn) : bool :=
  match turn with RunFirst => true | RunSecond => false end.

Definition turns_of_first (schedule : list Turn) : nat :=
  length (List.filter is_first schedule).

Definition turns_of_second (schedule : list Turn) : nat :=
  length (List.filter (fun t => negb (is_first t)) schedule).

(** The 403 answers of the gate. *)
Definition quota_exceeded (o : GateOutcome) : bool :=
  match o with
  | Rejected (Res403Limit _ _ _) => true
  | Rejected (Res403Increment (Some QuotaExceeded) _) => true
  | _ => false
  end.

(** How far a request has got: it is done after three steps. *)
Definition progress (t : Thread) : nat :=
  match t with
  | TStart => 0
  | TReset => 1
  | TSelected _ => 2
  | TDone _ => 3
  end.

(** The world once one request of the user with row [u] has incremented. *)
Definition world_after (userId : Z) (w : World) (u : UserRow) : World :=
  {| users := <[userId := bump u]> (users w);
     trace := trace w ++ [EvIncrement userId] |}.

(** A request received at [now] finds no daily reset due for the row [u]. *)
Definition in_window (u : UserRow) (now : Z) : Prop :=
  now - last_reset_at u < DAY_MS.

(** The states of a request while nobody has incremented yet: it has not
    read, or it has read the row [u]. *)
Inductive waiting (u : UserRow) : Thread -> Prop :=
| waiting_start : waiting u TStart
| waiting_reset : waiting u TReset
| waiting_read : waiting u (TSelected (Some u)).

(** The states of the request that did not get the last slot: it may still
    hold the old row, or have read the new one, or have been answered 403. *)
Inductive late (u : UserRow) : Thread -> Prop :=
| late_start : late u TStart
| late_reset : late u TReset
| late_old_read : late u (TSelected (Some u))
| late_new_read : late u (TSelected (Some (bump u)))
| late_rejected r :
    quota_exceeded (Rejected r) = true -> late u (TDone (Rejected r)).

(** The states that two requests of a freemium user with one slot left can
    reach, all interleavings included. *)
Inductive reachable (userId : Z) (w : World) (u : UserRow) : System -> Prop :=
| reach_before t1 t2 :
    waiting u t1 -> waiting u t2 ->
    reachable userId w u {| world := w; first := t1; second := t2 |}
| reach_first_won t2 :
    late u t2 ->
    reachable userId w u
      {| world := world_after userId w u; first := TDone Passed; second := t2 |}
| reach_second_won t1 :
    late u t1 ->
    reachable userId w u
      {| world := world_after userId w u; first := t1; second := TDone Passed |}.

End Race.

(** ** The generated-content cache of the side panel *)

Module Cache.

Definition CACHE_EXPIRY_TIME : Z := 24 * 60 * 60 * 1000.

Section WithPayload.

(** What is cached: a summary's HTML, a quiz, a card list, a transcript. *)
Context {Payload : Type}.

Record Entry := mkEntry {
  content : Payload;
  timestamp : Z;
  videoId : string
}.

(** The key under which an artifact of a content item is stored.
    [chrome.storage.local] itself is a [gmap string Entry]: only the cache
    entries of the store are modelled, and the store does not fail. *)
Definition key_of (type videoId : string) : string :=
  type +:+ "_" +:+ videoId.

(** ContentGenerator.js 27-43; [now] is [Date.now()]. *)
Definition saveGeneratedContent (now : Z) (videoId : option string)
    (type : string) (content : Payload) (st : gmap string Entry)
  : gmap string Entry :=
  match videoId with
  | None => st
  | Some id =>
      if String.eqb id "" then st
      else
        let key := key_of type id in
        let data := {| content := content; timestamp := now; videoId := id |} in
        <[key := data]> st
  end.

(** ContentGenerator.js 45-67: the value returned ([None] is [null]) and
    the storage afterwards. *)
Definition loadGeneratedContent (now : Z) (videoId : option string)
    (type : string) (st : gmap string Entry)
  : option Payload * gmap string Entry :=
  match videoId with
  | None => (None, st)
  | Some id =>
      if String.eqb id "" then (None, st)
      else
        let key := key_of type id in
        match st !! key with
        | None => (None, st)
        | Some data =>
            if CACHE_EXPIRY_TIME <? now - timestamp data
            then (None, delete key st)
            else (Some (content data), st)
        end
  end.

End WithPayload.

Arguments Entry : clear implicits.

(** What [new URL(url)] yields, as far as [getVideoId] looks at it: the
    name-value pairs of the query, in order. *)
Record URL := mkURL {
  searchParams : list (string * string)
}.

(** [searchParams.get(name)]: the value of the first pair of that name. *)
Fixpoint searchParams_get (name : string) (params : list (string * string))
  : option string :=
  match params with
  | [] => None
  | (k, v) :: rest =>
      if String.eqb k name then Some v else searchParams_get name rest
  end.

Section WithURL.

(** The [URL] constructor of the browser: [None] when it throws. *)
Variable new_URL : string -> option URL.

(** ContentGenerator.js 92-100. *)
Definition getVideoId (url : string) : option string :=
  match new_URL url with
  | Some urlObj => searchParams_get "v" (searchParams urlObj)
  | None => None
  end.

End WithURL.

End Cache.

(** ** The quiz: navigation and scoring *)

Module Quiz.

(** A [.question] element: whether it carries the class [active], the value
    of its checked radio button if one is checked, and the text of its
    [.correct-answer] element if it has one. *)
Record Question := mkQuestion {
  active : bool;
  selected : option string;
  correctAnswer : option string
}.

Record QuizState := mkQuizState {
  questions : list Question;
  currentQuestionIndex : Z;
  totalQuestions : Z
}.

(** [questions[i]]: [None] is [undefined]. *)
Definition nth_question (qs : list Question) (i : Z) : option Question :=
  if i <? 0 then None else qs !! Z.to_nat i.

Definition set_active (b : bool) (q : Question) : Question :=
  {| active := b; selected := selected q; correctAnswer := correctAnswer q |}.

(** [questions[i]?.classList.add/remove('active')]. *)
Definition mark (b : bool) (i : Z) (qs : list Question) : list Question :=
  if i <? 0 then qs else alter (set_active b) (Z.to_nat i) qs.

Definition clamp (total index : Z) : Z :=
  Z.max 0 (Z.min (total - 1) index).

(** QuizUIController.js 324-336, for a quiz that is displayed (the list of
    [.question] elements is there). *)
Definition navigateQuestions (direction : Z) (st : QuizState) : QuizState :=
  let qs := mark false (currentQuestionIndex st) (questions st) in
  let index := clamp (totalQuestions st) (currentQuestionIndex st + direction) in
  {| questions := mark true index qs;
     currentQuestionIndex := index;
     totalQuestions := totalQuestions st |}.

(** sidebar.js 898-909: the same, but [questions[i].classList] without the
    optional chaining throws a [TypeError] when [questions[i]] is
    [undefined]. *)
Inductive Outcome :=
| Returns (st : QuizState)
| Throws (st : QuizState).

Definition sidebar_navigateQuestions (direction : Z) (st : QuizState) : Outcome :=
  match nth_question (questions st) (currentQuestionIndex st) with
  | None => Throws st
  | Some _ =>
      let qs := mark false (currentQuestionIndex st) (questions st) in
      let index := clamp (totalQuestions st) (currentQuestionIndex st + direction) in
      match nth_question qs index with
      | None =>
          Throws {| questions := qs; currentQuestionIndex := index;
                    totalQuestions := totalQuestions st |}
      | Some _ =>
          Returns {| questions := mark true index qs;
                     currentQuestionIndex := index;
                     totalQuestions := totalQuestions st |}
      end
  end.

(** The handlers of the two buttons. *)
Definition next (st : QuizState) : QuizState := navigateQuestions 1 st.
Definition previous (st : QuizState) : QuizState := navigateQuestions (-1) st.

(** QuizUIController.js 260-265: a quiz as first displayed. *)
Definition initializeQuizNavigation (qs : list Question) : QuizState :=
  {| questions := mark true 0 qs;
     currentQuestionIndex := 0;
     totalQuestions := Z.of_nat (length qs) |}.

(** [selectedAnswer.value === correctAnswer]. *)
Definition answered_correctly (q : Question) : bool :=
  match selected q, correctAnswer q with
  | Some value, Some correct => String.eqb value correct
  | _, _ => false
  end.

(** In the spec's words, to be compared with [answered_correctly]: a choice
    is selected, and it is the recorded correct choice. *)
Definition chose_correct (q : Question) : Prop :=
  is_Some (selected q) /\ selected q = correctAnswer q.

#[global] Instance chose_correct_dec (q : Question) : Decision (chose_correct q) :=
  and_dec _ _.

(** QuizUIController.js 359-403: the tally that [forEach] builds. *)
Definition count_correct (qs : list Question) : Z :=
  foldl (fun correctAnswers q =>
           if answered_correctly q then correctAnswers + 1 else correctAnswers)
        0 qs.

Inductive Tier := win | ok | partial | fail.

(** [Math.round((correctAnswers / totalQuestions) * 100)] for a tally
    between 0 and a positive total, computed exactly and rounding halves up
    (for a total of 3 the doubles give the same 0, 33, 67, 100); [None] when
    the total is 0 and the quotient is not a number. *)
Definition percentage (correctAnswers totalQuestions : Z) : option Z :=
  if totalQuestions =? 0 then None
  else Some ((200 * correctAnswers + totalQuestions) / (2 * totalQuestions)).

(** QuizUIController.js 405-437: the tier, that is the suffix of the class
    names given to the score and to the message of the dialog. *)
Definition showQuizResultsDialog (correctAnswers totalQuestions : Z) : Tier :=
  if bool_decide (percentage correctAnswers totalQuestions = Some 100) then win
  else if correctAnswers =? 2 then ok
  else if correctAnswers =? 1 then partial
  else fail.

(** QuizUIController.js 359-403: the tally, then the dialog. *)
Definition checkQuizAnswers (qs : list Question) : Tier :=
  showQuizResultsDialog (count_correct qs) (Z.of_nat (length qs)).

End Quiz.

(** ** Concrete inputs used in the examples below *)

Module Samples.
Import Api.

(** A user with a limit of 10, last reset at time 0. *)
Definition demo_row (used : Z) (s : SubscriptionStatus) : UserRow :=
  {| enhancements_used := used; enhancements_limit := 10;
     last_reset_at := 0; subscription_status := s |}.

Definition demo_world (used : Z) (s : SubscriptionStatus) : World :=
  {| users := {[ 1 := demo_row used s ]}; trace := [] |}.

Definition body_of_transcript (t : string) : SummarizeBody :=
  {| transcript := Some t; text := None; content := None;
     context := None; title := None; contentType := None |}.

Definition a_transcript : string :=
  "[0:01] Plants make food from light. [0:07] This is called photosynthesis.".

Definition provider_up : Provider := fun _ => inl "<h4>Plants</h4>".

(** A toy stand-in for the browser's URL parser, enough for the examples:
    it knows two addresses and rejects everything else. *)
Definition toy_URL (url : string) : option Cache.URL :=
  if String.eqb url "https://www.youtube.com/watch?v=abc123&t=42"
  then Some {| Cache.searchParams := [("v", "abc123"); ("t", "42")] |}
  else if String.eqb url "https://example.org/article?id=7"
  then Some {| Cache.searchParams := [("id", "7")] |}
  else None.

(** A question whose checked answer is [picked] and whose right answer
    is [right]. *)
Definition question_with (picked right : string) : Quiz.Question :=
  {| Quiz.active := false; Quiz.selected := Some picked;
     Quiz.correctAnswer := Some right |}.

Definition three_questions : list Quiz.Question :=
  [question_with "a" "a"; question_with "b" "c"; question_with "c" "c"].

(** A reply whose prose has brackets of its own, and the array inside it. *)
Definition embedded_array : string := Js.qq "[{'question':'Q','answer':'A'}]".

Definition bracketed_reply : string := "[Note] " +:+ embedded_array.

(** An array whose only item has no answer. *)
Definition incomplete_array : string := Js.qq "[{'question':'Q'}]".

Definition fenced_reply : string :=
  "Here are your cards: ```json " +:+ embedded_array +:+ " ``` Enjoy!".

Definition provider_down : Provider :=
  fun _ => inr "OpenAI API error: service unavailable".

End Samples.

(** ** The sweep of the cache at start-up *)

Module Sweep.
Import Cache.

Section WithPayload.

Context {Payload : Type}.

(** The keys that the sweep looks at. *)
Definition swept_prefix (key : string) : bool :=
  (String.prefix "summary_" key || String.prefix "quiz_" key
   || String.prefix "chat_" key)%bool.

(** ContentGenerator.js 74-80: whether the loop pushes [key] on
    [keysToRemove]; a timestamp of 0 is falsy. *)
Definition to_remove (now : Z) (key : string) (value : Entry Payload) : bool :=
  (swept_prefix key
   && negb (timestamp value =? 0)
   && (CACHE_EXPIRY_TIME <? now - timestamp value))%bool.

Definition keysToRemove (now : Z) (st : gmap string (Entry Payload)) : list string :=
  (filter (fun kv => to_remove now kv.1 kv.2 = true) (map_to_list st)).*1.

(** ContentGenerator.js 69-89 (and sidebar.js 113-134): the storage after
    the sweep run at start-up. *)
Definition clearExpiredContent (now : Z) (st : gmap string (Entry Payload))
  : gmap string (Entry Payload) :=
  foldr delete st (keysToRemove now st).

End WithPayload.

(** No underscore in the name of an artifact type. *)
Definition plain (type : string) : Prop :=
  "_"%char ∉ list_ascii_of_string type.

End Sweep.

(** ** The quiz: buttons and series of clicks *)

Module QuizUi.
Import Quiz.

Record Buttons := mkButtons {
  prevDisabled : bool;
  nextDisabled : bool
}.

(** QuizUIController.js 345-357 (sidebar.js 918-927): the [disabled] flags
    of the two buttons. *)
Definition updateNavigationButtons (st : QuizState) : Buttons :=
  {| prevDisabled := currentQuestionIndex st =? 0;
     nextDisabled := currentQuestionIndex st =? totalQuestions st - 1 |}.

(** A series of clicks, each with its direction. *)
Definition navigate_all (directions : list Z) (st : QuizState) : QuizState :=
  foldl (fun st direction => navigateQuestions direction st) st directions.

(** What the user has answered, the [active] marks left aside. *)
Definition answers (qs : list Question) : list (option string * option string) :=
  map (fun q => (selected q, correctAnswer q)) qs.

(** The displayed question, and it alone, is marked [active]. *)
Definition shows_current (st : QuizState) : Prop :=
  totalQuestions st = Z.of_nat (length (questions st))
  /\ 0 <= currentQuestionIndex st <= totalQuestions st - 1
  /\ forall (i : nat) q,
       questions st !! i = Some q ->
       (active q = true <-> Z.of_nat i = currentQuestionIndex st).

End QuizUi.

(** ** What a request may do to the world *)

Module Effects.
Import Api.

(** What a request may add to the log of effects: nothing, the increment
    alone, or the increment followed by one call of the provider. *)
Inductive Added (userId : Z) : list Event -> Prop :=
| added_nothing : Added userId []
| added_increment : Added userId [EvIncrement userId]
| added_both message : Added userId [EvIncrement userId; EvProviderCall message].

(** The table after the daily reset of [userId], before anything else. *)
Definition after_reset (now userId : Z) (w : World) : gmap Z UserRow :=
  alter (reset_row now) userId (users w).

(** The table after the daily reset and one increment of [userId]. *)
Definition after_increment (now userId : Z) (w : World) : gmap Z UserRow :=
  alter bump userId (after_reset now userId w).

End Effects.

(** ** POST /api/quiz *)

Module QuizApi.
Import Api.
Local Open Scope handler_scope.

(** A field of the request body, as far as the handler looks at it.  The
    body is whatever JSON the client sent and is not validated: a field is a
    string, or something else (a number, a boolean, [null], an array, an
    object, or nothing at all), of which the handler uses the truthiness and
    the text that a template literal makes of it. *)
Inductive BodyValue :=
| BodyString (s : string)
| BodyOther (truthy : bool) (text : string).

(** A field that the body does not have. *)
Definition absent : BodyValue := BodyOther false "undefined".

Definition truthy_field (v : BodyValue) : bool :=
  match v with
  | BodyString s => negb (String.eqb s "")
  | BodyOther truthy _ => truthy
  end.

(** What a template literal makes of the field. *)
Definition text_of (v : BodyValue) : string :=
  match v with
  | BodyString s => s
  | BodyOther _ text => text
  end.

(** A truthy value that is no string: it has no [substring]. *)
Definition not_a_string (v : BodyValue) : bool :=
  match v with
  | BodyOther true _ => true
  | _ => false
  end.

Record QuizBody := mkQuizBody {
  qz_transcript : BodyValue;
  qz_summary : BodyValue;
  qz_difficulty : BodyValue;
  qz_title : BodyValue
}.

(** The body of a 200 answer: [{quiz, usage}]. *)
Record QuizReply := mkQuizReply {
  quiz_html : string;
  quiz_usage : UsageReport
}.

(** What [callOpenAI] is given: the two texts spliced into the system
    prompt, and the user message. *)
Record QuizRequest := mkQuizRequest {
  qr_context : string;
  qr_topic : string;
  qr_content : string
}.

Definition QuizProvider : Type := QuizRequest -> string + string.

Definition callOpenAI (provider : QuizProvider) (req : QuizRequest)
  : Handler (string + string) :=
  fun w =>
    (inr (provider req),
     {| users := users w; trace := trace w ++ [EvProviderCall (qr_content req)] |}).

Definition newline : string := String (ascii_of_nat 10) EmptyString.

(** api.js 223-224: [v ? v.substring(0, n) : ''] for the field called
    [name].  On the left the text; on the right the message of the
    [TypeError] thrown when the value is truthy and has no [substring]. *)
Definition truncated (name : string) (n : nat) (v : BodyValue) : string + string :=
  match v with
  | BodyString s => inl (if String.eqb s "" then "" else Js.substring0 n s)
  | BodyOther true _ => inr (name +:+ ".substring is not a function")
  | BodyOther false _ => inl ""
  end.

(** api.js 234. *)
Definition contextToUse (difficulty : BodyValue) : string :=
  if truthy_field difficulty
  then newline +:+ newline +:+ "The user requests: " +:+ text_of difficulty
       +:+ " difficulty"
  else "".

(** api.js 285-287. *)
Definition quiz_content (truncatedSummary truncatedTranscript context : string)
  : string :=
  if negb (String.eqb truncatedSummary "")
  then "Content Summary: " +:+ truncatedSummary +:+ context
  else "Content Transcript: " +:+ truncatedTranscript +:+ context.

(** api.js 180-319.  A thrown error is caught by the handler's [catch] and
    answered with 500 and [error.message || 'Failed to generate quiz'].  The
    count of the questions in the reply (api.js 294-298) only writes a
    warning to the console and is left out. *)
Definition quiz (now userId : Z) (body : QuizBody) (provider : QuizProvider)
  : Handler QuizReply :=
  if (negb (truthy_field (qz_transcript body))
      && negb (truthy_field (qz_summary body)))%bool
  then respond (Res400 "Transcript or summary is required")
  else
    exec quotaGate now userId in
    match truncated "transcript" 4000 (qz_transcript body) with
    | inr message =>
        respond (Res500 (Js.or_default (Some message) "Failed to generate quiz"))
    | inl truncatedTranscript =>
        match truncated "summary" 1000 (qz_summary body) with
        | inr message =>
            respond (Res500 (Js.or_default (Some message) "Failed to generate quiz"))
        | inl truncatedSummary =>
            let contentToUse :=
              if negb (String.eqb truncatedSummary "")
              then truncatedSummary else truncatedTranscript in
            if String.eqb contentToUse ""
            then respond (Res400 "Transcript or summary is required")
            else
              let context := contextToUse (qz_difficulty body) in
              do result <- callOpenAI provider
                             {| qr_context := context;
                                qr_topic :=
                                  if truthy_field (qz_title body)
                                  then text_of (qz_title body)
                                  else "unknown topic";
                                qr_content :=
                                  quiz_content truncatedSummary
                                    truncatedTranscript context |} in
              match result with
              | inr message =>
                  respond (Res500 (Js.or_default (Some message)
                                     "Failed to generate quiz"))
              | inl quiz =>
                  do updated <- selectUsage userId in
                  match updated with
                  | None =>
                      respond (Res500 "Cannot read properties of undefined (reading 'enhancements_used')")
                  | Some updatedUsage =>
                      ret {| quiz_html := quiz; quiz_usage := report updatedUsage |}
                  end
              end
        end
    end.


(** The body [body] with another transcript. *)
Definition with_transcript (t : BodyValue) (body : QuizBody) : QuizBody :=
  {| qz_transcript := t; qz_summary := qz_summary body;
     qz_difficulty := qz_difficulty body; qz_title := qz_title body |}.

End QuizApi.

(** ** Sending a message to the content script, with retries *)

Module Messaging.

Section WithResponse.

Context {R : Type}.

(** What happens to one call of [attemptSend] (sidebar.js 189-225); [R] is
    the type of what the callback of [sendMessage] can be given, [undefined]
    included. *)
Inductive Attempt :=
| NoRuntime
| QueryFailed
| NoActiveTab
| SendFailed
| Threw
| Replied (response : R)
| NoCallback.

(** What the promise is resolved with; [Pending] when it never is. *)
Inductive Resolution :=
| ResolvedError (message : string)
| ResolvedResponse (response : R)
| ResolvedSuccess
| Pending.

Record Sent := mkSent {
  resolution : Resolution;
  delays : list Z
}.

(** The outcomes that lead to [handleRetry]. *)
Definition transient (a : Attempt) : bool :=
  match a with
  | QueryFailed | SendFailed | Threw => true
  | _ => false
  end.

(** JavaScript truthiness of a response. *)
Variable truthy : R -> bool.

(** What an attempt that does not lead to [handleRetry] resolves the promise
    with; [response || { success: true }] for a reply, so that every falsy
    response (the empty string, 0, [false], [null], [undefined]) is replaced
    by [{ success: true }]. *)
Definition settle (a : Attempt) : Resolution :=
  match a with
  | NoRuntime => ResolvedError "Chrome runtime not available"
  | NoActiveTab => ResolvedError "No active tab found"
  | Replied response =>
      if truthy response then ResolvedResponse response else ResolvedSuccess
  | _ => Pending
  end.

Variable env : Z -> Attempt.
Variable maxRetries : Z.

(** sidebar.js 189-235: [attemptSend] and [handleRetry].  [env retryCount]
    is what happens to the attempt made when the counter has that value;
    [delays] collects the arguments of [setTimeout]. *)
Fixpoint attemptSend (fuel : nat) (retryCount : Z) (delays : list Z)
  : option Sent :=
  match fuel with
  | O => None
  | S fuel' =>
      if transient (env retryCount)
      then
        let retryCount := retryCount + 1 in
        if retryCount <? maxRetries
        then attemptSend fuel' retryCount (delays ++ [1000 * retryCount])
        else Some {| resolution :=
                       ResolvedError "Failed to send message after multiple attempts";
                     delays := delays |}
      else Some {| resolution := settle (env retryCount); delays := delays |}
  end.

(** sidebar.js 185-238. *)
Definition sendMessageWithTimeout : option Sent :=
  attemptSend (Z.to_nat (Z.max 1 maxRetries)) 0 [].

End WithResponse.

Arguments Attempt : clear implicits.
Arguments Resolution : clear implicits.
Arguments Sent : clear implicits.

(** The waits before the second, third, ... attempt, [n] of them. *)
Definition backoff (n : nat) : list Z := (fun k => 1000 * k) <$> seqZ 1 (Z.of_nat n).

End Messaging.

(** ** The generator of the side panel and its use of the cache *)

Module Generator.
Import Cache.

(** What the cache holds for the generator: the [content] of an entry is a
    string, or [undefined] when the answer that was saved had none. *)
Definition Storage : Type := gmap string (Entry (option string)).

(** The messages that the generator sends to the background page. *)
Inductive Message :=
| MsgSummarize (transcript context : string)
| MsgGenerateQuiz (transcript summary context : string).

(** The object that the background page answers with, as far as the
    generator reads it. *)
Record Answer := mkAnswer {
  r_error : option string;
  r_summary : option string;
  r_quiz : option string
}.

(** What [await chrome.runtime.sendMessage(...)] comes to: a rejection with
    the message of its error, or the answer, which may be [undefined]. *)
Inductive Reply :=
| Rejected (message : string)
| Answered (response : option Answer).

(** What an element of the panel shows. *)
Inductive Rendered :=
| AsHtml (html : option string)
| AsText (text : string)
| PremiumPopup.

(** Which of the elements that the generator looks up exist. *)
Record Elements := mkElements {
  summaryContainer : bool;
  summaryTextElement : bool;
  quizContainer : bool;
  quizContent : bool
}.

(** The fields of [currentVideoInfo] that the generator reads; the duration
    is in whole seconds. *)
Record VideoInfo := mkVideoInfo {
  duration : option Z;
  url : string
}.

(** The storage, the messages sent so far, and what the summary text and the
    quiz content show. *)
Record Panel := mkPanel {
  storage : gmap string (Entry (option string));
  sent : list Message;
  summaryText : Rendered;
  quizText : Rendered
}.

(** Truthiness of what [loadGeneratedContent] returns. *)
Definition truthy_content (v : option (option string)) : bool :=
  match v with
  | Some s => Js.truthy s
  | None => false
  end.

(** [currentVideoInfo?.duration > 3600]. *)
Definition long_video (currentVideoInfo : option VideoInfo) : bool :=
  match currentVideoInfo with
  | Some info =>
      match duration info with
      | Some seconds => 3600 <? seconds
      | None => false
      end
  | None => false
  end.

(** [context || (userContext?.summary || '')], and the same with [quiz]. *)
Definition effectiveContext (context : string) (fromUser : option string) : string :=
  if String.eqb context "" then Js.or_default fromUser "" else context.

Definition with_storage (st : Storage) (p : Panel) : Panel :=
  {| storage := st; sent := sent p;
     summaryText := summaryText p; quizText := quizText p |}.

Definition with_sent (m : Message) (p : Panel) : Panel :=
  {| storage := storage p; sent := sent p ++ [m];
     summaryText := summaryText p; quizText := quizText p |}.

Definition with_summaryText (r : Rendered) (p : Panel) : Panel :=
  {| storage := storage p; sent := sent p;
     summaryText := r; quizText := quizText p |}.

Definition with_quizText (r : Rendered) (p : Panel) : Panel :=
  {| storage := storage p; sent := sent p;
     summaryText := summaryText p; quizText := r |}.

Section WithEnvironment.

(** The [URL] constructor of the browser. *)
Variable new_URL : string -> option URL.

Variable ui : Elements.

(** [chrome.runtime]: the message of the error that reaching for
    [sendMessage] throws when it is not there, or how the background page
    replies. *)
Variable runtime : string + (Message -> Reply).

(** What [window.chatManager.loadCachedChat(videoId)] does to the storage
    (nothing when there is no chat manager). *)
Variable loadCachedChat : string -> Storage -> Storage.

(** [Date.now()] at the first access to the storage and at the second. *)
Variable now later : Z.

Definition videoId_of (currentVideoInfo : option VideoInfo) : option string :=
  match currentVideoInfo with
  | Some info => getVideoId new_URL (url info)
  | None => None
  end.

(** [if (summaryTextElement) summaryTextElement... = ...]. *)
Definition show_summary (r : Rendered) (p : Panel) : Panel :=
  if summaryTextElement ui then with_summaryText r p else p.

Definition summary_failed (message : string) (p : Panel) : Panel :=
  show_summary (AsText ("Failed to generate summary: " +:+ message)) p.

(** ContentGenerator.js 391-408, as far as the storage and the quiz content
    go. *)
Definition loadCachedQuiz (videoId : option string) (p : Panel) : Panel :=
  if (negb (Js.truthy videoId) || negb (quizContent ui))%bool then p
  else
    let '(cachedQuiz, st) := loadGeneratedContent later videoId "quiz" (storage p) in
    if truthy_content cachedQuiz
    then with_quizText (AsHtml (default None cachedQuiz)) (with_storage st p)
    else with_storage st p.

(** ContentGenerator.js 160-316, as far as the storage, the messages and the
    summary text go.  An [undefined] answer makes [response.summary] throw
    where it is evaluated, which the outer [catch] reports. *)
Definition generateSummary (text : string) (forceRegenerate : bool)
    (context : string) (currentVideoInfo : option VideoInfo)
    (userSummary : option string) (p : Panel) : Panel :=
  if negb (summaryContainer ui) then p
  else if long_video currentVideoInfo then show_summary PremiumPopup p
  else
    let videoId := videoId_of currentVideoInfo in
    let '(cachedSummary, st) :=
      if (negb forceRegenerate && Js.truthy videoId)%bool
      then loadGeneratedContent now videoId "summary" (storage p)
      else (None, storage p) in
    let p := with_storage st p in
    if truthy_content cachedSummary
    then
      let p := show_summary (AsHtml (default None cachedSummary)) p in
      let p := with_storage (loadCachedChat (Js.or_default videoId "") (storage p)) p in
      loadCachedQuiz videoId p
    else
      match runtime with
      | inl _ => summary_failed "Chrome runtime not available" p
      | inr background =>
          let message := MsgSummarize text (effectiveContext context userSummary) in
          let p := with_sent message p in
          match background message with
          | Rejected error => summary_failed error p
          | Answered None =>
              summary_failed "Cannot read properties of undefined (reading 'summary')" p
          | Answered (Some response) =>
              if Js.truthy (r_error response)
              then summary_failed (Js.or_default (r_error response) "") p
              else
                let p := show_summary (AsHtml (r_summary response)) p in
                with_storage
                  (saveGeneratedContent later videoId "summary"
                     (r_summary response) (storage p)) p
          end
      end.

Definition quiz_failed (message : string) (p : Panel) : Panel :=
  with_quizText (AsHtml (Some ("Failed to generate quiz: " +:+ message))) p.

(** ContentGenerator.js 318-389, as far as the storage, the messages and the
    quiz content go. *)
Definition generateQuiz (transcript summary : option string) (context : string)
    (currentVideoInfo : option VideoInfo) (userQuiz : option string)
    (p : Panel) : Panel :=
  if (negb (quizContainer ui) || negb (quizContent ui))%bool then p
  else
    let videoId := videoId_of currentVideoInfo in
    let '(cachedQuiz, st) :=
      if Js.truthy videoId
      then loadGeneratedContent now videoId "quiz" (storage p)
      else (None, storage p) in
    let p := with_storage st p in
    if truthy_content cachedQuiz
    then with_quizText (AsHtml (default None cachedQuiz)) p
    else
      let contentToUse := Js.or_default (Js.or_else transcript summary) "" in
      if String.eqb contentToUse ""
      then quiz_failed "Transcript or summary is required" p
      else
        match runtime with
        | inl error => quiz_failed error p
        | inr background =>
            let message :=
              MsgGenerateQuiz (Js.or_default transcript "")
                (Js.or_default summary "") (effectiveContext context userQuiz) in
            let p := with_sent message p in
            match background message with
            | Rejected error => quiz_failed error p
            | Answered None => quiz_failed "Invalid quiz response format" p
            | Answered (Some response) =>
                if Js.truthy (r_error response)
                then quiz_failed (Js.or_default (r_error response) "") p
                else if Js.truthy (r_quiz response)
                then
                  let p := with_quizText (AsHtml (r_quiz response)) p in
                  with_storage
                    (saveGeneratedContent later videoId "quiz"
                       (r_quiz response) (storage p)) p
                else quiz_failed "Invalid quiz response format" p
            end
        end.

End WithEnvironment.


(** The storage entry that a save at [time] writes. *)
Definition entry_at (time : Z) (id : string) (payload : option string)
  : Entry (option string) :=
  {| content := payload; timestamp := time; Cache.videoId := id |}.

End Generator.

(** ** The shape of a cleaned content text *)

Module Clean.

(** A text in which white space only occurs as single spaces between other
    characters: every white-space character is a space, no two of them are
    next to each other, and the text neither begins nor ends with one. *)
Definition normalised (l : list ascii) : Prop :=
  Forall (fun c => Js.is_space c = true -> c = " "%char) l
  /\ (forall a c1 c2 b,
        l = (a ++ c1 :: c2 :: b)%list ->
        Js.is_space c1 = true -> Js.is_space c2 = true -> False)
  /\ (forall c, head l = Some c -> Js.is_space c = false)
  /\ (forall c, last l = Some c -> Js.is_space c = false).

End Clean.

(** ** More concrete inputs *)

Module Scenarios.

(** A storage with a summary written at time 1000 and a quiz written at
    time 100000000 for the same video. *)
Definition a_store : gmap string (Cache.Entry string) :=
  <["quiz_abc123" := {| Cache.content := "<div>Quiz</div>";
                        Cache.timestamp := 100000000;
                        Cache.videoId := "abc123" |}]>
    {[ "summary_abc123" := {| Cache.content := "<h4>Plants</h4>";
                              Cache.timestamp := 1000;
                              Cache.videoId := "abc123" |} ]}.

(** A page text that is almost all blanks. *)
Definition blank_page : string := "     short     ".

Definition body_of_page (t : string) : Api.SummarizeBody :=
  {| Api.transcript := None; Api.text := Some t; Api.content := None;
     Api.context := None; Api.title := None;
     Api.contentType := Some "webpage" |}.

Definition long_transcript : string :=
  "[0:01] Plants make food from light. [0:07] This is called photosynthesis.".

Definition cards_of_transcript (t : string) : Api.FlashcardsBody :=
  {| Api.fc_contentType := None; Api.fc_transcript := Some t;
     Api.fc_text := None; Api.fc_title := None |}.

(** A quiz request that carries both a summary and a transcript. *)
Definition a_quiz_body : QuizApi.QuizBody :=
  {| QuizApi.qz_transcript := QuizApi.BodyString "Plants make food from light.";
     QuizApi.qz_summary := QuizApi.BodyString "<h4>Plants</h4>";
     QuizApi.qz_difficulty := QuizApi.BodyString "hard";
     QuizApi.qz_title := QuizApi.absent |}.

Definition quiz_provider_up : QuizApi.QuizProvider :=
  fun _ => inl "<div>Quiz</div>".

(** Truthiness of a response that is a string. *)
Definition nonempty (response : string) : bool := negb (String.eqb response "").

(** An environment in which every attempt to send fails. *)
Definition always_failing (retryCount : Z) : Messaging.Attempt string :=
  Messaging.SendFailed.

(** An environment in which the first two attempts fail and the third is
    answered. *)
Definition third_time_lucky (retryCount : Z) : Messaging.Attempt string :=
  if retryCount <? 2 then Messaging.SendFailed
  else Messaging.Replied "ok".

(** An environment in which the first attempt fails and the second is
    answered with the empty string. *)
Definition answered_empty (retryCount : Z) : Messaging.Attempt string :=
  if retryCount <? 1 then Messaging.SendFailed
  else Messaging.Replied "".

(** A panel with all its elements, nothing stored, nothing sent. *)
Definition whole_panel : Generator.Elements :=
  {| Generator.summaryContainer := true; Generator.summaryTextElement := true;
     Generator.quizContainer := true; Generator.quizContent := true |}.

Definition empty_panel : Generator.Panel :=
  {| Generator.storage := ∅; Generator.sent := [];
     Generator.summaryText := Generator.AsText "";
     Generator.quizText := Generator.AsText "" |}.

(** A ten-minute video. *)
Definition a_video : Generator.VideoInfo :=
  {| Generator.duration := Some 600;
     Generator.url := "https://www.youtube.com/watch?v=abc123&t=42" |}.

(** A background page that answers every message with a summary and a
    quiz. *)
Definition background_up (m : Generator.Message) : Generator.Reply :=
  Generator.Answered
    (Some {| Generator.r_error := None;
             Generator.r_summary := Some "<h4>Plants</h4>";
             Generator.r_quiz := Some "<div>Quiz</div>" |}).

(** No chat manager. *)
Definition no_chat (videoId : string) (st : Generator.Storage) : Generator.Storage :=
  st.

End Scenarios.

(** * Properties *)

(** ** The JSON parser always decides *)

Module JsonFacts.
Import Json.

Lemma skip_ws_length l : (length (skip_ws l) <= length l)%nat.
Proof.
  induction l as [ | c t IH ]; simpl; [ lia | ].
  destruct (is_ws c); simpl; lia.
Qed.

Lemma expect_length c l r : expect c l = Some r -> (length r < length l)%nat.
Proof.
  unfold expect. intros H. pose proof (skip_ws_length l) as Hle.
  destruct (skip_ws l) as [ | d t ]; [ discriminate | ].
  destruct (Ascii.eqb d c); [ | discriminate ].
  injection H as <-. simpl in Hle. lia.
Qed.

Lemma parse_string_bounded n : forall l acc s r,
  (length l <= n)%nat ->
  parse_string l acc = Some (s, r) -> (length r < length l)%nat.
Proof.
  induction n as [ | n IH ]; intros l acc s r Hn H.
  { destruct l; [ discriminate | simpl in Hn; lia ]. }
  destruct l as [ | c t ]; [ discriminate | ].
  simpl in H, Hn.
  destruct (N_of_ascii c =? 34)%N.
  { injection H as <- <-. simpl. lia. }
  destruct (N_of_ascii c =? 92)%N.
  - destruct t as [ | e t' ]; [ discriminate | ].
    destruct (N_of_ascii e =? 117)%N.
    + destruct t' as [ | h1 [ | h2 [ | h3 [ | h4 t'' ] ] ] ]; try discriminate.
      destruct (hex_digit h1), (hex_digit h2), (hex_digit h3), (hex_digit h4);
        try discriminate.
      apply IH in H; simpl in *; lia.
    + destruct (simple_escape e); [ | discriminate ].
      apply IH in H; simpl in *; lia.
  - destruct (N_of_ascii c <? 32)%N; [ discriminate | ].
    apply IH in H; simpl in *; lia.
Qed.

Lemma parse_string_length l acc s r :
  parse_string l acc = Some (s, r) -> (length r < length l)%nat.
Proof. apply (parse_string_bounded (length l)). lia. Qed.

Lemma digits_len_le l : (Js.digits_len l <= length l)%nat.
Proof.
  induction l as [ | c t IH ]; simpl; [ lia | ].
  destruct (Js.is_digit c); simpl; lia.
Qed.

Lemma digits_part_length l digits r :
  digits_part l = Some (digits, r) -> (length r < length l)%nat.
Proof.
  unfold digits_part. intros H. pose proof (digits_len_le l) as Hle.
  destruct (Js.digits_len l) as [ | k ]; [ discriminate | ].
  injection H as <- <-. rewrite length_drop. lia.
Qed.

Lemma sign_part_length l sign r :
  sign_part l = (sign, r) -> (length r <= length l)%nat.
Proof.
  unfold sign_part. intros H. destruct l as [ | c t ].
  - injection H as <- <-. lia.
  - destruct (Ascii.eqb c "-"); injection H as <- <-; simpl; lia.
Qed.

Lemma int_part_length l int r :
  int_part l = Some (int, r) -> (length r < length l)%nat.
Proof.
  unfold int_part. intros H. destruct l as [ | c t ]; [ discriminate | ].
  destruct (Ascii.eqb c "0").
  - injection H as <- <-. simpl. lia.
  - by apply digits_part_length in H.
Qed.

Lemma frac_part_length l frac r :
  frac_part l = Some (frac, r) -> (length r <= length l)%nat.
Proof.
  unfold frac_part. intros H. destruct l as [ | c t ].
  - injection H as <- <-. lia.
  - destruct (Ascii.eqb c ".").
    + destruct (digits_part t) as [ [digits r'] | ] eqn:E; [ | discriminate ].
      injection H as <- <-. apply digits_part_length in E. simpl. lia.
    + injection H as <- <-. lia.
Qed.

Lemma exp_sign_part_length l sign r :
  exp_sign_part l = (sign, r) -> (length r <= length l)%nat.
Proof.
  unfold exp_sign_part. intros H. destruct l as [ | c t ].
  - injection H as <- <-. lia.
  - destruct (Ascii.eqb c "+" || Ascii.eqb c "-")%bool;
      injection H as <- <-; simpl; lia.
Qed.

Lemma exp_part_length l ex r :
  exp_part l = Some (ex, r) -> (length r <= length l)%nat.
Proof.
  unfold exp_part. intros H. destruct l as [ | e t ].
  - injection H as <- <-. lia.
  - destruct (Ascii.eqb e "e" || Ascii.eqb e "E")%bool.
    + destruct (exp_sign_part t) as [esign t'] eqn:Es.
      apply exp_sign_part_length in Es.
      destruct (digits_part t') as [ [digits r'] | ] eqn:E; [ | discriminate ].
      injection H as <- <-. apply digits_part_length in E. simpl. lia.
    + injection H as <- <-. lia.
Qed.

Lemma parse_number_length l lex r :
  parse_number l = Some (lex, r) -> (length r < length l)%nat.
Proof.
  unfold parse_number. intros H.
  destruct (sign_part l) as [sign l1] eqn:E1. apply sign_part_length in E1.
  destruct (int_part l1) as [ [int l2] | ] eqn:E2; [ | discriminate ].
  apply int_part_length in E2.
  destruct (frac_part l2) as [ [frac l3] | ] eqn:E3; [ | discriminate ].
  apply frac_part_length in E3.
  destruct (exp_part l3) as [ [ex l4] | ] eqn:E4; [ | discriminate ].
  apply exp_part_length in E4.
  injection H as <- <-. lia.
Qed.

Lemma strip_prefix_length p : forall l r,
  strip_prefix p l = Some r -> (length r + length p = length l)%nat.
Proof.
  induction p as [ | a p IH ]; intros l r H; simpl in H.
  - injection H as <-. simpl. lia.
  - destruct l as [ | b l' ]; [ discriminate | ].
    destruct (Ascii.eqb a b); [ | discriminate ].
    apply IH in H. simpl. lia.
Qed.

Lemma parse_scalar_length l v r :
  parse_scalar l = Some (v, r) -> (length r < length l)%nat.
Proof.
  unfold parse_scalar. intros H.
  destruct (strip_prefix _ l) as [ r1 | ] eqn:E1.
  { injection H as <- <-. apply strip_prefix_length in E1. simpl in E1. lia. }
  destruct (strip_prefix _ l) as [ r2 | ] eqn:E2 in H.
  { injection H as <- <-. apply strip_prefix_length in E2. simpl in E2. lia. }
  destruct (strip_prefix _ l) as [ r3 | ] eqn:E3 in H.
  { injection H as <- <-. apply strip_prefix_length in E3. simpl in E3. lia. }
  destruct (parse_number l) as [ [lex r4] | ] eqn:E4; [ | discriminate ].
  injection H as <- <-. by apply parse_number_length in E4.
Qed.

(** Whatever the fuel, a value that is read leaves a shorter rest. *)
Lemma parse_shrinks fuel :
  (forall l v r, parse_value fuel l = Ok (v, r) -> (length r < length l)%nat)
  /\ (forall l acc v r,
        parse_elements fuel l acc = Ok (v, r) -> (length r < length l)%nat)
  /\ (forall l acc v r,
        parse_members fuel l acc = Ok (v, r) -> (length r < length l)%nat).
Proof.
  induction fuel as [ | fuel (IHv & IHe & IHm) ].
  { repeat split; intros; discriminate. }
  split; [ | split ].
  - intros l v r H. simpl in H. pose proof (skip_ws_length l) as Hws.
    destruct (skip_ws l) as [ | c t ]; [ discriminate | ]. simpl in Hws.
    destruct (Ascii.eqb c "[").
    { destruct (expect "]" t) as [ r' | ] eqn:E.
      - injection H as <- <-. apply expect_length in E. lia.
      - apply IHe in H. lia. }
    destruct (Ascii.eqb c "{").
    { destruct (expect "}" t) as [ r' | ] eqn:E.
      - injection H as <- <-. apply expect_length in E. lia.
      - apply IHm in H. lia. }
    destruct (Ascii.eqb c Js.dquote).
    { destruct (parse_string t []) as [ [s r'] | ] eqn:E; [ | discriminate ].
      injection H as <- <-. apply parse_string_length in E. lia. }
    destruct (parse_scalar (c :: t)) as [ [v' r'] | ] eqn:E; [ | discriminate ].
    injection H as <- <-. apply parse_scalar_length in E. simpl in E. lia.
  - intros l acc v r H. simpl in H.
    destruct (parse_value fuel l) as [ [v' r'] | | ] eqn:Ev; try discriminate.
    apply IHv in Ev.
    destruct (expect "," r') as [ r2 | ] eqn:E.
    { apply expect_length in E. apply IHe in H. lia. }
    destruct (expect "]" r') as [ r2 | ] eqn:E'; [ | discriminate ].
    injection H as <- <-. apply expect_length in E'. lia.
  - intros l acc v r H. simpl in H.
    destruct (expect Js.dquote l) as [ t | ] eqn:E0; [ | discriminate ].
    apply expect_length in E0.
    destruct (parse_string t []) as [ [k r1] | ] eqn:E1; [ | discriminate ].
    apply parse_string_length in E1.
    destruct (expect ":" r1) as [ r2 | ] eqn:E2; [ | discriminate ].
    apply expect_length in E2.
    destruct (parse_value fuel r2) as [ [v' r3] | | ] eqn:Ev; try discriminate.
    apply IHv in Ev.
    destruct (expect "," r3) as [ r4 | ] eqn:E.
    { apply expect_length in E. apply IHm in H. lia. }
    destruct (expect "}" r3) as [ r4 | ] eqn:E'; [ | discriminate ].
    injection H as <- <-. apply expect_length in E'. lia.
Qed.

(** Two units of fuel per character, and one or two to start, are enough. *)
Lemma fuel_suffices fuel :
  (forall l, (2 * length l + 1 <= fuel)%nat -> parse_value fuel l <> OutOfFuel)
  /\ (forall l acc,
        (2 * length l + 2 <= fuel)%nat -> parse_elements fuel l acc <> OutOfFuel)
  /\ (forall l acc,
        (2 * length l + 2 <= fuel)%nat -> parse_members fuel l acc <> OutOfFuel).
Proof.
  induction fuel as [ | fuel (IHv & IHe & IHm) ].
  { repeat split; intros; lia. }
  destruct (parse_shrinks fuel) as (Sv & Se & Sm).
  split; [ | split ].
  - intros l Hf. simpl. pose proof (skip_ws_length l) as Hws.
    destruct (skip_ws l) as [ | c t ]; [ discriminate | ]. simpl in Hws.
    destruct (Ascii.eqb c "[").
    { destruct (expect "]" t); [ discriminate | ]. apply IHe. lia. }
    destruct (Ascii.eqb c "{").
    { destruct (expect "}" t); [ discriminate | ]. apply IHm. lia. }
    destruct (Ascii.eqb c Js.dquote).
    { destruct (parse_string t []) as [ [s r'] | ]; discriminate. }
    destruct (parse_scalar (c :: t)) as [ [v' r'] | ]; discriminate.
  - intros l acc Hf. simpl.
    destruct (parse_value fuel l) as [ [v' r'] | | ] eqn:Ev; try discriminate.
    + apply Sv in Ev.
      destruct (expect "," r') as [ r2 | ] eqn:E.
      { apply expect_length in E. apply IHe. lia. }
      destruct (expect "]" r'); discriminate.
    + exfalso. revert Ev. apply IHv. lia.
  - intros l acc Hf. simpl.
    destruct (expect Js.dquote l) as [ t | ] eqn:E0; [ | discriminate ].
    apply expect_length in E0.
    destruct (parse_string t []) as [ [k r1] | ] eqn:E1; [ | discriminate ].
    apply parse_string_length in E1.
    destruct (expect ":" r1) as [ r2 | ] eqn:E2; [ | discriminate ].
    apply expect_length in E2.
    destruct (parse_value fuel r2) as [ [v' r3] | | ] eqn:Ev; try discriminate.
    + apply Sv in Ev.
      destruct (expect "," r3) as [ r4 | ] eqn:E.
      { apply expect_length in E. apply IHm. lia. }
      destruct (expect "}" r3); discriminate.
    + exfalso. revert Ev. apply IHv. lia.
Qed.

(** [JSON.parse] never fails for want of fuel: when the model says that it
    throws, the text is not JSON. *)
Theorem parse_text_decides l : parse_text l <> OutOfFuel.
Proof.
  unfold parse_text.
  destruct (parse_value (2 * length l + 2) l) as [ [v r] | | ] eqn:E.
  - destruct (skip_ws r); discriminate.
  - discriminate.
  - exfalso. revert E. apply (fuel_suffices (2 * length l + 2)). lia.
Qed.

Corollary parse_none_is_syntax_error l :
  parse l = None <-> parse_text l = SyntaxError.
Proof.
  unfold parse. pose proof (parse_text_decides l) as H.
  destruct (parse_text l); split; intros; try discriminate; try reflexivity.
  contradiction.
Qed.

End JsonFacts.


(** ** The quota gate and the summarize handler *)

Module ApiFacts.
Import Api Samples.

Lemma reset_row_in_window now u :
  now - last_reset_at u < DAY_MS -> reset_row now u = u.
Proof.
  intros Hwin. unfold reset_row.
  destruct (DAY_MS <=? now - last_reset_at u) eqn:E; [ | reflexivity ].
  apply Z.leb_le in E. lia.
Qed.

Lemma reset_in_window now userId w u :
  users w !! userId = Some u ->
  now - last_reset_at u < DAY_MS ->
  resetDailyUsageIfNeeded now userId w = w.
Proof.
  intros Hu Hwin. destruct w as [us tr]. unfold resetDailyUsageIfNeeded. simpl in *.
  f_equal. apply alter_id. intros x Hx.
  rewrite Hu in Hx. injection Hx as <-. by apply reset_row_in_window.
Qed.

Lemma reset_lookup now userId w :
  users (resetDailyUsageIfNeeded now userId w) !! userId
  = reset_row now <$> users w !! userId.
Proof. unfold resetDailyUsageIfNeeded. simpl. by rewrite lookup_alter_eq. Qed.

Lemma allowed_below_limit u :
  enhancements_used u < enhancements_limit u -> allowed u = true.
Proof.
  intros H. unfold allowed. destruct (subscription_status u); [ | reflexivity ].
  by apply Z.ltb_lt.
Qed.

(** The gate lets a request through when the row that it reads is below its
    limit, and the counter is one higher afterwards. *)
Lemma incrementIfAllowed_passes userId w u :
  users w !! userId = Some u ->
  enhancements_used u < enhancements_limit u ->
  incrementIfAllowed userId w
  = (inr tt, {| users := <[userId := bump u]> (users w);
                trace := trace w ++ [EvIncrement userId] |}).
Proof.
  intros Hu Hlt.
  unfold incrementIfAllowed, bind, selectUsage, get_world, ret, lift, incrementUsage.
  simpl. rewrite Hu.
  destruct (enhancements_limit u <=? enhancements_used u) eqn:E.
  { apply Z.leb_le in E. lia. }
  rewrite Hu, (allowed_below_limit u Hlt). reflexivity.
Qed.

(** At or above the limit the handler answers 403 by itself, whatever the
    subscription, and [incrementUsage] is not called. *)
Lemma incrementIfAllowed_rejects userId w u :
  users w !! userId = Some u ->
  enhancements_limit u <= enhancements_used u ->
  incrementIfAllowed userId w
  = (inl (Res403Limit "Daily enhancement limit reached"
            (enhancements_used u) (enhancements_limit u)), w).
Proof.
  intros Hu Hge.
  unfold incrementIfAllowed, bind, selectUsage, get_world, ret, respond.
  simpl. rewrite Hu.
  destruct (enhancements_limit u <=? enhancements_used u) eqn:E; [ reflexivity | ].
  apply Z.leb_gt in E. lia.
Qed.

Lemma gate_times_pass n : forall userId w u,
  users w !! userId = Some u ->
  enhancements_used u + Z.of_nat n <= enhancements_limit u ->
  exists w',
    gate_times n userId w = (replicate n (inr tt), w')
    /\ users w' !! userId = Some (with_used (enhancements_used u + Z.of_nat n) u).
Proof.
  induction n as [ | n IH ]; intros userId w u Hu Hle.
  - exists w. split; [ reflexivity | ].
    rewrite Hu. f_equal. destruct u; unfold with_used; simpl. f_equal. lia.
  - cbn [gate_times].
    rewrite (incrementIfAllowed_passes userId w u Hu) by lia.
    set (w1 := {| users := <[userId := bump u]> (users w);
                  trace := trace w ++ [EvIncrement userId] |}).
    destruct (IH userId w1 (bump u)) as (w' & Hrun & Hrow).
    { subst w1. simpl. apply lookup_insert_eq. }
    { simpl. lia. }
    exists w'. rewrite Hrun. split; [ reflexivity | ].
    rewrite Hrow. f_equal. unfold with_used, bump. simpl. f_equal. lia.
Qed.

Lemma quotaGate_passes now userId w u :
  users w !! userId = Some u ->
  enhancements_used (reset_row now u) < enhancements_limit (reset_row now u) ->
  quotaGate now userId w
  = (inr tt,
     {| users := <[userId := bump (reset_row now u)]>
                   (alter (reset_row now) userId (users w));
        trace := trace w ++ [EvIncrement userId] |}).
Proof.
  intros Hu Hlt. unfold quotaGate, bind, modify.
  rewrite (incrementIfAllowed_passes userId _ (reset_row now u)); [ reflexivity | | exact Hlt ].
  rewrite reset_lookup, Hu. reflexivity.
Qed.

Lemma quotaGate_rejects now userId w u :
  users w !! userId = Some u ->
  now - last_reset_at u < DAY_MS ->
  enhancements_limit u <= enhancements_used u ->
  quotaGate now userId w
  = (inl (Res403Limit "Daily enhancement limit reached"
            (enhancements_used u) (enhancements_limit u)), w).
Proof.
  intros Hu Hwin Hge. unfold quotaGate, bind, modify.
  rewrite (reset_in_window now userId w u Hu Hwin).
  rewrite (incrementIfAllowed_rejects userId w u Hu Hge). reflexivity.
Qed.

Lemma summarize_accepted now userId body provider type contentText w :
  accepted body type contentText ->
  summarize_body now userId body provider w
  = bind (quotaGate now userId) (fun _ =>
      let clean := cleanContent type contentText in
      if (Z.of_nat (String.length clean) <? 10)
      then respond (Res400 "Content is too short or empty")
      else
        bind (callOpenAI provider
                {| pr_type := type; pr_title := title body;
                   pr_context := context body; pr_content := clean |})
          (fun result =>
             match result with
             | inr message =>
                 respond (Res500 (Js.or_default (Some message)
                                    "Failed to generate summary"))
             | inl summary =>
                 bind (selectUsage userId) (fun updated =>
                   match updated with
                   | None =>
                       respond (Res500 "Cannot read properties of undefined (reading 'enhancements_used')")
                   | Some updatedUsage =>
                       ret (Res200Summary summary type (report updatedUsage))
                   end)
             end)) w.
Proof.
  intros (Htype & Hvalid & Htext & Hne).
  unfold summarize_body. rewrite <- Htype, Hvalid, Htext. simpl.
  destruct (String.eqb_spec contentText ""); [ contradiction | reflexivity ].
Qed.

(** C3. A freemium user who starts at [enhancementsUsed = u < limit] passes
    the gate (the handler's limit check followed by [incrementUsage]) exactly
    [limit - u] times in a row, which leaves [enhancementsUsed = limit]; the
    next request is answered 403 with the current counters
    ([enhancementsUsed], [enhancementsLimit]) and leaves the row, and the
    whole world, as it was; [incrementUsage] called directly at that point
    fails with QuotaExceeded, reports the same counters and changes
    nothing. *)
Theorem C3_quota_monotonicity (userId : Z) (w : World) (u : UserRow) :
  users w !! userId = Some u ->
  subscription_status u = freemium ->
  enhancements_used u < enhancements_limit u ->
  exists w',
    gate_times (Z.to_nat (enhancements_limit u - enhancements_used u)) userId w
    = (replicate (Z.to_nat (enhancements_limit u - enhancements_used u)) (inr tt), w')
    /\ users w' !! userId = Some (with_used (enhancements_limit u) u)
    /\ incrementIfAllowed userId w'
       = (inl (Res403Limit "Daily enhancement limit reached"
                 (enhancements_limit u) (enhancements_limit u)), w')
    /\ incrementUsage userId w'
       = ({| success := false; error := Some QuotaExceeded;
             usage := Some {| enhancementsUsed := enhancements_limit u;
                              enhancementsLimit := enhancements_limit u |} |}, w').
Proof.
  intros Hu Hfree Hlt.
  destruct (gate_times_pass (Z.to_nat (enhancements_limit u - enhancements_used u))
              userId w u Hu) as (w' & Hrun & Hrow).
  { lia. }
  replace (enhancements_used u
           + Z.of_nat (Z.to_nat (enhancements_limit u - enhancements_used u)))
    with (enhancements_limit u) in Hrow by lia.
  exists w'. split; [ exact Hrun | ]. split; [ exact Hrow | ]. split.
  - rewrite (incrementIfAllowed_rejects userId w' _ Hrow); simpl; [ reflexivity | lia ].
  - unfold incrementUsage. rewrite Hrow. unfold allowed. simpl. rewrite Hfree.
    rewrite Z.ltb_irrefl. reflexivity.
Qed.

Lemma C3_quota_monotonicity_witness :
  exists w',
    gate_times 3 1 (demo_world 7 freemium) = ([inr tt; inr tt; inr tt], w')
    /\ users w' !! 1 = Some (demo_row 10 freemium)
    /\ incrementIfAllowed 1 w'
       = (inl (Res403Limit "Daily enhancement limit reached" 10 10), w')
    /\ incrementUsage 1 w'
       = ({| success := false; error := Some QuotaExceeded;
             usage := Some {| enhancementsUsed := 10; enhancementsLimit := 10 |} |}, w').
Proof.
  apply (C3_quota_monotonicity 1 (demo_world 7 freemium) (demo_row 7 freemium)).
  - reflexivity.
  - reflexivity.
  - simpl. lia.
Defined.

(** X1. At or above the limit the summarize handler refuses every user, the
    premium ones included: its limit check does not look at the subscription,
    and [incrementUsage], which would let a premium user through, is not
    reached. *)
Lemma handler_check_ignores_subscription (now userId : Z) (body : SummarizeBody)
    (provider : Provider) (type contentText : string) (w : World) (u : UserRow) :
  accepted body type contentText ->
  users w !! userId = Some u ->
  now - last_reset_at u < DAY_MS ->
  enhancements_limit u <= enhancements_used u ->
  summarize now userId body provider w
  = (Res403Limit "Daily enhancement limit reached"
       (enhancements_used u) (enhancements_limit u), w).
Proof.
  intros Hacc Hu Hwin Hge.
  unfold summarize, run.
  rewrite (summarize_accepted _ _ _ _ _ _ _ Hacc). unfold bind.
  rewrite (quotaGate_rejects now userId w u Hu Hwin Hge). reflexivity.
Qed.

Lemma incrementUsage_premium userId w u :
  users w !! userId = Some u ->
  subscription_status u = premium ->
  success (fst (incrementUsage userId w)) = true.
Proof.
  intros Hu Hprem. unfold incrementUsage. rewrite Hu. unfold allowed.
  rewrite Hprem. reflexivity.
Qed.

(** C2, at a failing input. A premium user whose counter equals the limit
    (10 of 10) sends a well-formed summarize request while the provider is
    up: [incrementUsage] alone would succeed for this user, but the handler
    answers 403 "Daily enhancement limit reached" with the counters 10 and
    10, and the request does not succeed. *)
Theorem C2_premium_at_limit_refused :
  subscription_status (demo_row 10 premium) = premium
  /\ enhancements_used (demo_row 10 premium) = enhancements_limit (demo_row 10 premium)
  /\ success (fst (incrementUsage 1 (demo_world 10 premium))) = true
  /\ succeeded (fst (summarize 1000 1 (body_of_transcript a_transcript) provider_up
                      (demo_world 10 premium))) = false
  /\ summarize 1000 1 (body_of_transcript a_transcript) provider_up
       (demo_world 10 premium)
     = (Res403Limit "Daily enhancement limit reached" 10 10, demo_world 10 premium).
Proof. repeat split; vm_compute; reflexivity. Qed.

(** What a summarize request that passes the gate and the length check comes
    to: one increment, one provider call, and an answer that depends on the
    provider alone. *)
Lemma summarize_passed now userId body provider type contentText w u :
  accepted body type contentText ->
  10 <= Z.of_nat (String.length (cleanContent type contentText)) ->
  users w !! userId = Some u ->
  enhancements_used (reset_row now u) < enhancements_limit (reset_row now u) ->
  summarize now userId body provider w
  = (match provider {| pr_type := type; pr_title := title body;
                       pr_context := context body;
                       pr_content := cleanContent type contentText |} with
     | inl summary => Res200Summary summary type (report (bump (reset_row now u)))
     | inr message =>
         Res500 (Js.or_default (Some message) "Failed to generate summary")
     end,
     {| users := <[userId := bump (reset_row now u)]>
                   (alter (reset_row now) userId (users w));
        trace := (trace w ++ [EvIncrement userId;
                              EvProviderCall (cleanContent type contentText)])%list |}).
Proof.
  intros Hacc Hlen Hu Hlt.
  unfold summarize, run.
  rewrite (summarize_accepted _ _ _ _ _ _ _ Hacc). unfold bind at 1.
  rewrite (quotaGate_passes now userId w u Hu Hlt).
  cbv zeta.
  destruct (Z.of_nat (String.length (cleanContent type contentText)) <? 10) eqn:E.
  { apply Z.ltb_lt in E. lia. }
  unfold bind, callOpenAI, selectUsage, get_world, ret, respond. simpl.
  rewrite <- app_assoc. simpl.
  destruct (provider _) as [summary | message]; simpl.
  - rewrite lookup_insert_eq. reflexivity.
  - reflexivity.
Qed.

(** C4. A summarize request that passes the quota gate (known content type,
    non-empty text of at least 10 cleaned characters, counter below the
    limit once the daily reset has been applied) increments the counter and
    only then calls the provider: the log of effects grows by the increment
    followed by the provider call.  If that call fails, the answer is a 500
    carrying the provider's message, and the counter stays incremented. *)
Theorem C4_increment_before_provider (now userId : Z) (body : SummarizeBody)
    (provider : Provider) (type contentText : string) (w : World) (u : UserRow) :
  accepted body type contentText ->
  10 <= Z.of_nat (String.length (cleanContent type contentText)) ->
  users w !! userId = Some u ->
  enhancements_used (reset_row now u) < enhancements_limit (reset_row now u) ->
  let request := {| pr_type := type; pr_title := title body;
                    pr_context := context body;
                    pr_content := cleanContent type contentText |} in
  let w' := snd (summarize now userId body provider w) in
  users w' = <[userId := bump (reset_row now u)]>
               (alter (reset_row now) userId (users w))
  /\ users w' !! userId = Some (bump (reset_row now u))
  /\ trace w' = (trace w ++ [EvIncrement userId;
                             EvProviderCall (cleanContent type contentText)])%list
  /\ forall message,
       provider request = inr message ->
       fst (summarize now userId body provider w)
       = Res500 (Js.or_default (Some message) "Failed to generate summary")
       /\ status (fst (summarize now userId body provider w)) = 500.
Proof.
  intros Hacc Hlen Hu Hlt request w'. subst w'.
  rewrite (summarize_passed now userId body provider type contentText w u
             Hacc Hlen Hu Hlt).
  fold request.
  simpl. split; [ reflexivity | ]. split; [ apply lookup_insert_eq | ].
  split; [ reflexivity | ].
  intros message Hp. rewrite Hp. split; reflexivity.
Qed.

Lemma C4_increment_before_provider_witness :
  let w' := snd (summarize 1000 1 (body_of_transcript a_transcript) provider_down
                   (demo_world 3 freemium)) in
  users w' !! 1 = Some (demo_row 4 freemium)
  /\ trace w' = [EvIncrement 1;
                 EvProviderCall "Plants make food from light. This is called photosynthesis."]
  /\ fst (summarize 1000 1 (body_of_transcript a_transcript) provider_down
            (demo_world 3 freemium))
     = Res500 "OpenAI API error: service unavailable".
Proof.
  destruct (C4_increment_before_provider 1000 1 (body_of_transcript a_transcript)
              provider_down "video" a_transcript (demo_world 3 freemium)
              (demo_row 3 freemium))
    as (_ & Hrow & Htrace & Hfail).
  - repeat split; try reflexivity. discriminate.
  - vm_compute. discriminate.
  - reflexivity.
  - vm_compute. reflexivity.
  - split; [ exact Hrow | ]. split; [ exact Htrace | ].
    exact (proj1 (Hfail "OpenAI API error: service unavailable"%string eq_refl)).
Defined.

(** X2. A request that passes the gate and is then found too short is answered
    400 with the counter already incremented. *)
Lemma summarize_short_after_gate now userId body provider type contentText w u :
  accepted body type contentText ->
  Z.of_nat (String.length (cleanContent type contentText)) < 10 ->
  users w !! userId = Some u ->
  enhancements_used (reset_row now u) < enhancements_limit (reset_row now u) ->
  summarize now userId body provider w
  = (Res400 "Content is too short or empty",
     {| users := <[userId := bump (reset_row now u)]>
                   (alter (reset_row now) userId (users w));
        trace := (trace w ++ [EvIncrement userId])%list |}).
Proof.
  intros Hacc Hlen Hu Hlt.
  unfold summarize, run.
  rewrite (summarize_accepted _ _ _ _ _ _ _ Hacc). unfold bind at 1.
  rewrite (quotaGate_passes now userId w u Hu Hlt).
  cbv zeta.
  destruct (Z.of_nat (String.length (cleanContent type contentText)) <? 10) eqn:E.
  - reflexivity.
  - apply Z.ltb_ge in E. lia.
Qed.

(** C5, at a failing input. The transcript "[0:01] hi" is not empty, so the
    request passes the early checks and the quota gate; its cleaned text
    "hi" is shorter than 10 characters, so the answer is 400 "Content is too
    short or empty" -- and the counter has gone from 0 to 1 on the way. *)
Theorem C5_short_content_consumes_quota :
  summarize 1000 1 (body_of_transcript "[0:01] hi") provider_up (demo_world 0 freemium)
  = (Res400 "Content is too short or empty",
     {| users := {[ 1 := demo_row 1 freemium ]}; trace := [EvIncrement 1] |})
  /\ users (demo_world 0 freemium) !! 1 = Some (demo_row 0 freemium).
Proof. split; vm_compute; reflexivity. Qed.

(** The flashcards handler has the same order: gate first, length check
    after. *)
Example flashcards_short_content_consumes_quota :
  flashcards 1000 1
    {| fc_contentType := None; fc_transcript := Some "[0:01] hi";
       fc_text := None; fc_title := None |}
    provider_up (demo_world 0 freemium)
  = (Res400 "Content is too short to generate flashcards",
     {| users := {[ 1 := demo_row 1 freemium ]}; trace := [EvIncrement 1] |}).
Proof. vm_compute. reflexivity. Qed.

(** X3. The flashcards handler increments before it calls the provider, too, and
    keeps the increment when the call fails. *)
Lemma flashcards_increment_before_provider now userId body provider w u message :
  let type := Js.or_default (fc_contentType body) "video" in
  let contentText :=
    if String.eqb type "video"
    then Js.or_default (fc_transcript body) ""
    else Js.or_default (fc_text body) "" in
  let request := {| pr_type := type; pr_title := fc_title body;
                    pr_context := None;
                    pr_content := cleanFlashcardContent type contentText |} in
  contentText <> "" ->
  50 <= Z.of_nat (String.length (cleanFlashcardContent type contentText)) ->
  users w !! userId = Some u ->
  enhancements_used (reset_row now u) < enhancements_limit (reset_row now u) ->
  provider request = inr message ->
  flashcards now userId body provider w
  = (Res500 (Js.or_default (Some message) "Failed to generate flashcards"),
     {| users := <[userId := bump (reset_row now u)]>
                   (alter (reset_row now) userId (users w));
        trace := (trace w ++ [EvIncrement userId;
                              EvProviderCall (pr_content request)])%list |}).
Proof.
  intros type contentText request Hne Hlen Hu Hlt Hp.
  unfold flashcards, run, flashcards_body. fold type. fold contentText.
  destruct (String.eqb_spec contentText ""); [ contradiction | ].
  unfold bind at 1. rewrite (quotaGate_passes now userId w u Hu Hlt).
  cbv zeta.
  destruct (Z.of_nat (String.length (cleanFlashcardContent type contentText)) <? 50) eqn:E.
  { apply Z.ltb_lt in E. lia. }
  unfold bind, callOpenAI. simpl. fold request. rewrite Hp. simpl.
  rewrite <- app_assoc. reflexivity.
Qed.

(** The 400 answers given before the gate do leave the world alone. *)
Lemma summarize_missing_content_pure now userId body provider w :
  Js.or_else (Js.or_else (transcript body) (text body)) (content body) = None ->
  snd (summarize now userId body provider w) = w.
Proof.
  intros H. unfold summarize, run, summarize_body. rewrite H.
  destruct (negb _); reflexivity.
Qed.

End ApiFacts.

(** ** Two requests racing for the last slot *)

Module RaceFacts.
Import Api Race Samples.

#[local] Arguments Nat.min : simpl never.

(** A request that runs alone does what the handler's gate does. *)
Lemma thread_alone now userId w :
  (let '(t1, w1) := thread_step now userId TStart w in
   let '(t2, w2) := thread_step now userId t1 w1 in
   thread_step now userId t2 w2)
  = match quotaGate now userId w with
    | (inl r, w') => (TDone (Rejected r), w')
    | (inr _, w') => (TDone Passed, w')
    end.
Proof.
  unfold quotaGate, incrementIfAllowed, bind, modify, selectUsage, get_world,
    ret, respond, lift.
  simpl.
  destruct (alter (reset_row now) userId (users w) !! userId) as [user | ];
    [ | reflexivity ].
  simpl. destruct (enhancements_limit user <=? enhancements_used user); [ reflexivity | ].
  destruct (incrementUsage userId _) as [res w']. destruct (success res); reflexivity.
Qed.

Lemma thread_step_progress now userId t w :
  progress (fst (thread_step now userId t w)) = Nat.min 3 (S (progress t)).
Proof.
  destruct t as [ | | [user | ] | o ]; simpl; try reflexivity.
  destruct (enhancements_limit user <=? enhancements_used user); [ reflexivity | ].
  destruct (incrementUsage userId w) as [res w']. destruct (success res); reflexivity.
Qed.

Lemma run_schedule_progress now1 now2 userId schedule : forall s,
  progress (first (run_schedule now1 now2 userId schedule s))
  = Nat.min 3 (progress (first s) + turns_of_first schedule)
  /\ progress (second (run_schedule now1 now2 userId schedule s))
    = Nat.min 3 (progress (second s) + turns_of_second schedule).
Proof.
  unfold run_schedule, turns_of_first, turns_of_second.
  induction schedule as [ | turn rest IH ]; intros s.
  - simpl.
    destruct (first s) as [ | | ? | ? ], (second s) as [ | | ? | ? ]; split; reflexivity.
  - simpl foldl. destruct (IH (system_step now1 now2 userId turn s)) as [IH1 IH2].
    rewrite IH1, IH2. clear IH IH1 IH2.
    destruct turn; simpl.
    + pose proof (thread_step_progress now1 userId (first s) (world s)) as Hp.
      destruct (thread_step now1 userId (first s) (world s)) as [t w']. simpl in *.
      rewrite Hp. split; lia.
    + pose proof (thread_step_progress now2 userId (second s) (world s)) as Hp.
      destruct (thread_step now2 userId (second s) (world s)) as [t w']. simpl in *.
      rewrite Hp. split; lia.
Qed.

Section OneSlotLeft.

Variables (userId : Z) (w : World) (u : UserRow).
Hypothesis Hrow : users w !! userId = Some u.
Hypothesis Hfreemium : subscription_status u = freemium.
Hypothesis Hone : enhancements_used u = enhancements_limit u - 1.

Lemma reset_before now :
  in_window u now -> thread_step now userId TStart w = (TReset, w).
Proof.
  intros Hwin. simpl. by rewrite (ApiFacts.reset_in_window now userId w u Hrow Hwin).
Qed.

Lemma reset_after now :
  in_window u now ->
  thread_step now userId TStart (world_after userId w u)
  = (TReset, world_after userId w u).
Proof.
  intros Hwin. simpl.
  rewrite (ApiFacts.reset_in_window now userId _ (bump u)); [ reflexivity | | exact Hwin ].
  apply lookup_insert_eq.
Qed.

Lemma select_before now :
  thread_step now userId TReset w = (TSelected (Some u), w).
Proof. simpl. rewrite Hrow. reflexivity. Qed.

Lemma select_after now :
  thread_step now userId TReset (world_after userId w u)
  = (TSelected (Some (bump u)), world_after userId w u).
Proof. simpl. rewrite lookup_insert_eq. reflexivity. Qed.

Lemma increment_wins now :
  thread_step now userId (TSelected (Some u)) w
  = (TDone Passed, world_after userId w u).
Proof.
  simpl. destruct (enhancements_limit u <=? enhancements_used u) eqn:E.
  { apply Z.leb_le in E. lia. }
  unfold incrementUsage. rewrite Hrow.
  rewrite ApiFacts.allowed_below_limit by lia. reflexivity.
Qed.

Lemma increment_loses now :
  thread_step now userId (TSelected (Some u)) (world_after userId w u)
  = (TDone (Rejected (Res403Increment (Some QuotaExceeded)
                        (Some (counters_of (bump u))))),
     world_after userId w u).
Proof.
  simpl. destruct (enhancements_limit u <=? enhancements_used u) eqn:E.
  { apply Z.leb_le in E. lia. }
  unfold incrementUsage. simpl. rewrite lookup_insert_eq.
  unfold allowed. simpl. rewrite Hfreemium.
  destruct (enhancements_used u + 1 <? enhancements_limit u) eqn:E'.
  { apply Z.ltb_lt in E'. lia. }
  reflexivity.
Qed.

Lemma check_loses now w' :
  thread_step now userId (TSelected (Some (bump u))) w'
  = (TDone (Rejected (Res403Limit "Daily enhancement limit reached"
                        (enhancements_used u + 1) (enhancements_limit u))), w').
Proof.
  simpl. destruct (enhancements_limit u <=? enhancements_used u + 1) eqn:E.
  - reflexivity.
  - apply Z.leb_gt in E. lia.
Qed.

Lemma late_step now t :
  in_window u now ->
  late u t ->
  exists t', thread_step now userId t (world_after userId w u)
             = (t', world_after userId w u) /\ late u t'.
Proof.
  intros Hwin H. inversion H; subst.
  - eexists. split; [ by apply reset_after | constructor ].
  - eexists. split; [ apply select_after | constructor ].
  - eexists. split; [ apply increment_loses | by constructor ].
  - eexists. split; [ apply check_loses | by constructor ].
  - eexists. split; [ reflexivity | by constructor ].
Qed.

Lemma reachable_step now1 now2 turn s :
  in_window u now1 -> in_window u now2 ->
  reachable userId w u s ->
  reachable userId w u (system_step now1 now2 userId turn s).
Proof.
  intros Hw1 Hw2 H. inversion H as [ t1 t2 H1 H2 | t2 H2 | t1 H1 ]; subst;
    destruct turn; unfold system_step; simpl world; simpl first; simpl second.
  - inversion H1; subst.
    + rewrite (reset_before now1 Hw1). by constructor; [ constructor | ].
    + rewrite select_before. by constructor; [ constructor | ].
    + rewrite increment_wins. apply reach_first_won.
      inversion H2; constructor.
  - inversion H2; subst.
    + rewrite (reset_before now2 Hw2). by constructor; [ | constructor ].
    + rewrite select_before. by constructor; [ | constructor ].
    + rewrite increment_wins. apply reach_second_won.
      inversion H1; constructor.
  - apply reach_first_won. exact H2.
  - destruct (late_step now2 t2 Hw2 H2) as (t' & -> & Hl). by apply reach_first_won.
  - destruct (late_step now1 t1 Hw1 H1) as (t' & -> & Hl). by apply reach_second_won.
  - apply reach_second_won. exact H1.
Qed.

Lemma reachable_run now1 now2 schedule : forall s,
  in_window u now1 -> in_window u now2 ->
  reachable userId w u s ->
  reachable userId w u (run_schedule now1 now2 userId schedule s).
Proof.
  unfold run_schedule.
  induction schedule as [ | turn rest IH ]; intros s Hw1 Hw2 H; simpl.
  - exact H.
  - apply IH; try assumption. by apply reachable_step.
Qed.

Lemma reachable_start : reachable userId w u (start w).
Proof. apply reach_before; constructor. Qed.

End OneSlotLeft.

(** What the source decides about two requests at once.  The handler's own
    steps (api.js 75-93) do not keep two requests apart: when each has run
    its reset check and its SELECT before the other increments, both hold
    the row with one slot left, both pass the comparison of api.js 86-93, and
    the next step of each is the call of [incrementUsage] and nothing else.
    Whether the second call is then refused is up to [incrementUsage], whose
    code ([config/usage.js]) is not among the sources. *)
Lemma both_pass_the_handler_check (now1 now2 userId : Z) (w : World) (u : UserRow) :
  users w !! userId = Some u ->
  enhancements_used u = enhancements_limit u - 1 ->
  now1 - last_reset_at u < DAY_MS ->
  now2 - last_reset_at u < DAY_MS ->
  let s := run_schedule now1 now2 userId
             [RunFirst; RunSecond; RunFirst; RunSecond] (start w) in
  world s = w
  /\ first s = TSelected (Some u)
  /\ second s = TSelected (Some u)
  /\ (enhancements_limit u <=? enhancements_used u) = false
  /\ thread_step now1 userId (first s) (world s)
     = (let '(incrementResult, w') := incrementUsage userId w in
        if success incrementResult
        then (TDone Passed, w')
        else (TDone (Rejected (Res403Increment (error incrementResult)
                                 (usage incrementResult))), w')).
Proof.
  intros Hrow Hone Hw1 Hw2.
  assert (Hcheck : (enhancements_limit u <=? enhancements_used u) = false)
    by (apply Z.leb_gt; lia).
  unfold run_schedule, start. simpl.
  rewrite (ApiFacts.reset_in_window now1 userId w u Hrow Hw1).
  rewrite (ApiFacts.reset_in_window now2 userId w u Hrow Hw2).
  rewrite !lookup_alter_eq, Hrow. simpl.
  rewrite (ApiFacts.reset_row_in_window now1 u Hw1).
  rewrite (ApiFacts.reset_row_in_window now2 u Hw2).
  rewrite Hcheck.
  repeat split.
Qed.

(** The two lemmas that follow say what the increment of section 4.1 of the
    spec would give, taken as one atomic step that lets premium users
    through; they do not say what the code of [config/usage.js] does.

    With that increment, two requests of a premium user with
    [enhancementsUsed = enhancementsLimit - 1] that both read the row before
    either increments both pass, and the counter ends above the limit. *)
Lemma premium_both_pass_as_specified :
  let u := demo_row 9 premium in
  let s := run_schedule 1000 1001 1
             [RunFirst; RunSecond; RunFirst; RunSecond; RunFirst; RunSecond]
             (start (demo_world 9 premium)) in
  users (demo_world 9 premium) !! 1 = Some u
  /\ enhancements_used u = enhancements_limit u - 1
  /\ first s = TDone Passed
  /\ second s = TDone Passed
  /\ users (world s) !! 1 = Some (demo_row 11 premium).
Proof. repeat split; vm_compute; reflexivity. Qed.

(** With that increment, when a freemium user has exactly one slot left
    ([enhancementsUsed = enhancementsLimit - 1], no daily reset being due) and
    two requests run the gate at once, then under every interleaving of their
    database steps (the reset check, the SELECT, then the increment): never
    both pass, and the counter never exceeds the limit; and once each request
    has had its three steps, exactly one has passed, the other has been
    answered 403 (quota exceeded), and the counter equals the limit. *)
Theorem one_winner_as_specified (now1 now2 userId : Z) (w : World) (u : UserRow)
    (schedule : list Turn) :
  users w !! userId = Some u ->
  subscription_status u = freemium ->
  enhancements_used u = enhancements_limit u - 1 ->
  now1 - last_reset_at u < DAY_MS ->
  now2 - last_reset_at u < DAY_MS ->
  let s := run_schedule now1 now2 userId schedule (start w) in
  ~ (first s = TDone Passed /\ second s = TDone Passed)
  /\ (exists u', users (world s) !! userId = Some u'
                 /\ enhancements_used u' <= enhancements_limit u'
                 /\ enhancements_limit u' = enhancements_limit u)
  /\ ((3 <= turns_of_first schedule)%nat ->
      (3 <= turns_of_second schedule)%nat ->
      users (world s) !! userId = Some (with_used (enhancements_limit u) u)
      /\ ((first s = TDone Passed
           /\ exists r, second s = TDone (Rejected r)
                        /\ quota_exceeded (Rejected r) = true)
          \/ (second s = TDone Passed
              /\ exists r, first s = TDone (Rejected r)
                           /\ quota_exceeded (Rejected r) = true))).
Proof.
  intros Hrow Hfree Hone Hw1 Hw2 s.
  assert (Hbump : bump u = with_used (enhancements_limit u) u).
  { unfold bump, with_used. f_equal. lia. }
  pose proof (reachable_run userId w u Hrow Hfree Hone now1 now2 schedule (start w)
                Hw1 Hw2 (reachable_start userId w u)) as Hreach.
  destruct (run_schedule_progress now1 now2 userId schedule (start w)) as [Hp1 Hp2].
  fold s in Hreach, Hp1, Hp2. simpl in Hp1, Hp2.
  inversion Hreach as [ t1 t2 H1 H2 Hs | t2 H2 Hs | t1 H1 Hs ];
    rewrite <- Hs in Hp1, Hp2; simpl in Hp1, Hp2; simpl.
  - split; [ | split ].
    + intros [-> _]. inversion H1.
    + exists u. split; [ exact Hrow | lia ].
    + intros Ha Hb. exfalso.
      assert (progress t1 = 3%nat) by lia.
      inversion H1; subst; discriminate.
  - split; [ | split ].
    + intros [_ ->]. inversion H2.
    + exists (bump u). split; [ apply lookup_insert_eq | simpl; lia ].
    + intros Ha Hb. split; [ rewrite <- Hbump; apply lookup_insert_eq | ].
      left. split; [ reflexivity | ].
      assert (Hd : progress t2 = 3%nat) by lia.
      inversion H2; subst; try discriminate. eauto.
  - split; [ | split ].
    + intros [-> _]. inversion H1.
    + exists (bump u). split; [ apply lookup_insert_eq | simpl; lia ].
    + intros Ha Hb. split; [ rewrite <- Hbump; apply lookup_insert_eq | ].
      right. split; [ reflexivity | ].
      assert (Hd : progress t1 = 3%nat) by lia.
      inversion H1; subst; try discriminate. eauto.
Qed.

Lemma one_winner_as_specified_witness :
  let s := run_schedule 1000 1001 1
             [RunFirst; RunSecond; RunSecond; RunFirst; RunSecond; RunFirst]
             (start (demo_world 9 freemium)) in
  users (world s) !! 1 = Some (demo_row 10 freemium)
  /\ ((first s = TDone Passed
       /\ exists r, second s = TDone (Rejected r)
                    /\ quota_exceeded (Rejected r) = true)
      \/ (second s = TDone Passed
          /\ exists r, first s = TDone (Rejected r)
                       /\ quota_exceeded (Rejected r) = true)).
Proof.
  destruct (one_winner_as_specified 1000 1001 1 (demo_world 9 freemium)
              (demo_row 9 freemium)
              [RunFirst; RunSecond; RunSecond; RunFirst; RunSecond; RunFirst])
    as (_ & _ & Hdone).
  - reflexivity.
  - reflexivity.
  - reflexivity.
  - vm_compute. reflexivity.
  - vm_compute. reflexivity.
  - apply Hdone; vm_compute; lia.
Defined.

End RaceFacts.

(** ** The generated-content cache *)

Module CacheFacts.
Import Cache Samples.

Section WithPayload.

Context {Payload : Type}.
Implicit Types (st : gmap string (Entry Payload)) (payload : Payload).

Lemma save_writes now id type payload st :
  id <> "" ->
  saveGeneratedContent now (Some id) type payload st
  = <[key_of type id := {| content := payload; timestamp := now; videoId := id |}]> st.
Proof.
  intros Hid. unfold saveGeneratedContent.
  destruct (String.eqb_spec id ""); [ contradiction | reflexivity ].
Qed.

Lemma load_entry now id type st (data : Entry Payload) :
  id <> "" ->
  st !! key_of type id = Some data ->
  loadGeneratedContent now (Some id) type st
  = if CACHE_EXPIRY_TIME <? now - timestamp data
    then (None, delete (key_of type id) st)
    else (Some (content data), st).
Proof.
  intros Hid Hdata. unfold loadGeneratedContent.
  destruct (String.eqb_spec id ""); [ contradiction | ].
  simpl. rewrite Hdata. reflexivity.
Qed.

(** C6. An entry written at time [T] under the key
    [type ++ "_" ++ contentIdentity] is what [loadGeneratedContent] finds
    as long as it is still stored under that key: a read at a time [t]
    with [t - T] at most 24 hours returns the stored payload and leaves
    the storage alone; a read with [t - T] above 24 hours returns [null]
    and leaves the storage without that key. *)
Theorem C6_cache_ttl (T t : Z) (id type : string) (payload : Payload)
    (st st' : gmap string (Entry Payload)) :
  id <> "" ->
  st' !! key_of type id
    = saveGeneratedContent T (Some id) type payload st !! key_of type id ->
  saveGeneratedContent T (Some id) type payload st !! key_of type id
    = Some {| content := payload; timestamp := T; videoId := id |}
  /\ (t - T <= 24 * 60 * 60 * 1000 ->
      loadGeneratedContent t (Some id) type st' = (Some payload, st'))
  /\ (24 * 60 * 60 * 1000 < t - T ->
      loadGeneratedContent t (Some id) type st'
      = (None, delete (key_of type id) st')
      /\ delete (key_of type id) st' !! key_of type id = None).
Proof.
  intros Hid Hsame.
  rewrite (save_writes T id type payload st Hid) in Hsame |- *.
  rewrite lookup_insert_eq in Hsame |- *.
  split; [ reflexivity | ].
  rewrite (load_entry t id type st' _ Hid Hsame). simpl.
  change CACHE_EXPIRY_TIME with (24 * 60 * 60 * 1000).
  split; intros Ht.
  - destruct (24 * 60 * 60 * 1000 <? t - T) eqn:E; [ | reflexivity ].
    apply Z.ltb_lt in E. lia.
  - destruct (24 * 60 * 60 * 1000 <? t - T) eqn:E.
    + split; [ reflexivity | apply lookup_delete_eq ].
    + apply Z.ltb_ge in E. lia.
Qed.

(** A content identity that is [null] (or the empty string) is never
    written and never read. *)
Lemma null_identity_not_cached now type payload st :
  saveGeneratedContent now None type payload st = st
  /\ loadGeneratedContent now None type st = (None, st)
  /\ saveGeneratedContent now (Some "") type payload st = st
  /\ loadGeneratedContent now (Some "") type st = (None, st).
Proof. repeat split. Qed.

End WithPayload.

(** 23 h 59 min after the write the summary is served from the cache, 24 h
    01 min after it the entry is dropped. *)
Lemma C6_cache_ttl_witness :
  let T := 1700000000000 in
  let st' := saveGeneratedContent T (Some "abc123") "summary" "<h4>Plants</h4>" ∅ in
  st' !! "summary_abc123"
    = Some {| content := "<h4>Plants</h4>"; timestamp := T; videoId := "abc123" |}
  /\ loadGeneratedContent (T + 86340000) (Some "abc123") "summary" st'
     = (Some "<h4>Plants</h4>", st')
  /\ loadGeneratedContent (T + 86460000) (Some "abc123") "summary" st'
     = (None, ∅).
Proof.
  intros T st'.
  destruct (C6_cache_ttl T (T + 86340000) "abc123" "summary" "<h4>Plants</h4>" ∅ st')
    as (Hw & Hfresh & _); [ discriminate | reflexivity | ].
  destruct (C6_cache_ttl T (T + 86460000) "abc123" "summary" "<h4>Plants</h4>" ∅ st')
    as (_ & _ & Hstale); [ discriminate | reflexivity | ].
  split; [ exact Hw | ]. split.
  - apply Hfresh. subst T. lia.
  - destruct Hstale as [Hs _]; [ subst T; lia | ].
    rewrite Hs. f_equal.
Defined.

Section WithURL.

Variable new_URL : string -> option URL.

Lemma searchParams_get_none name params :
  (forall k v, (k, v) ∈ params -> k <> name) ->
  searchParams_get name params = None.
Proof.
  induction params as [ | [k v] rest IH ]; intros Hno; [ reflexivity | ].
  simpl. destruct (String.eqb_spec k name) as [-> | _].
  - exfalso. apply (Hno name v); [ left | reflexivity ].
  - apply IH. intros k' v' Hin. apply (Hno k' v'). by right.
Qed.

Lemma searchParams_get_first name params before value after :
  params = (before ++ (name, value) :: after)%list ->
  (forall k v, (k, v) ∈ before -> k <> name) ->
  searchParams_get name params = Some value.
Proof.
  intros -> Hno. induction before as [ | [k v] rest IH ]; simpl.
  - rewrite String.eqb_refl. reflexivity.
  - destruct (String.eqb_spec k name) as [-> | _].
    + exfalso. apply (Hno name v); [ left | reflexivity ].
    + apply IH. intros k' v' Hin. apply (Hno k' v'). by right.
Qed.

(** C10. [getVideoId] returns the value of the first [v] parameter of the
    parsed URL; it returns [null] when the URL constructor throws, and
    also when the URL is well formed but has no [v] parameter.  With a
    [null] identity [saveGeneratedContent] stores nothing and
    [loadGeneratedContent] returns [null] without touching the storage,
    so for such a URL nothing is written to or read from the cache. *)
Theorem C10_video_id_and_null_identity {Payload : Type} (url type : string)
    (now : Z) (payload : Payload) (st : gmap string (Entry Payload)) :
  (new_URL url = None -> getVideoId new_URL url = None)
  /\ (forall urlObj,
        new_URL url = Some urlObj ->
        (forall k v, (k, v) ∈ searchParams urlObj -> k <> "v") ->
        getVideoId new_URL url = None)
  /\ (forall urlObj before value after,
        new_URL url = Some urlObj ->
        searchParams urlObj = (before ++ ("v", value) :: after)%list ->
        (forall k v, (k, v) ∈ before -> k <> "v") ->
        getVideoId new_URL url = Some value)
  /\ saveGeneratedContent now None type payload st = st
  /\ loadGeneratedContent now None type st = (None, st)
  /\ (getVideoId new_URL url = None ->
      saveGeneratedContent now (getVideoId new_URL url) type payload st = st
      /\ loadGeneratedContent now (getVideoId new_URL url) type st = (None, st)).
Proof.
  unfold getVideoId. repeat split.
  - intros ->. reflexivity.
  - intros urlObj -> Hno. by apply searchParams_get_none.
  - intros urlObj before value after -> Hparams Hno.
    by apply (searchParams_get_first "v" _ before value after).
  - rewrite H. reflexivity.
  - rewrite H. reflexivity.
Qed.

End WithURL.

Lemma C10_video_id_and_null_identity_witness :
  getVideoId toy_URL "https://www.youtube.com/watch?v=abc123&t=42" = Some "abc123"
  /\ getVideoId toy_URL "https://example.org/article?id=7" = None
  /\ getVideoId toy_URL "not a url" = None
  /\ saveGeneratedContent 5 (getVideoId toy_URL "https://example.org/article?id=7")
       "summary" "<p>text</p>" (∅ : gmap string (Entry string)) = ∅
  /\ loadGeneratedContent 5 (getVideoId toy_URL "not a url") "summary"
       (∅ : gmap string (Entry string)) = (None, ∅).
Proof.
  destruct (C10_video_id_and_null_identity toy_URL
              "https://www.youtube.com/watch?v=abc123&t=42" "summary" 5
              "<p>text</p>" (∅ : gmap string (Entry string)))
    as (_ & _ & Hv & _).
  destruct (C10_video_id_and_null_identity toy_URL
              "https://example.org/article?id=7" "summary" 5
              "<p>text</p>" (∅ : gmap string (Entry string)))
    as (_ & Hnov & _ & _ & _ & Hskip).
  destruct (C10_video_id_and_null_identity toy_URL
              "not a url" "summary" 5
              "<p>text</p>" (∅ : gmap string (Entry string)))
    as (Hbad & _ & _ & _ & _ & Hskip').
  assert (Hnone : getVideoId toy_URL "https://example.org/article?id=7" = None).
  { apply (Hnov {| searchParams := [("id", "7")] |}); [ reflexivity | ].
    intros k v Hin. apply list_elem_of_singleton in Hin.
    injection Hin as -> _. discriminate. }
  split.
  { apply (Hv {| searchParams := [("v", "abc123"); ("t", "42")] |} [] "abc123" [("t", "42")]);
      [ reflexivity | reflexivity | ].
    intros k v Hin. inversion Hin. }
  split; [ exact Hnone | ].
  split; [ apply Hbad; reflexivity | ].
  split; [ exact (proj1 (Hskip Hnone)) | ].
  exact (proj2 (Hskip' (Hbad eq_refl))).
Defined.

End CacheFacts.

(** ** The quiz navigator and the scoring *)

Module QuizFacts.
Import Quiz Samples.

Lemma mark_length b i qs : length (mark b i qs) = length qs.
Proof. unfold mark. destruct (i <? 0); [ reflexivity | apply length_alter ]. Qed.

Lemma nth_question_mark b i j qs :
  is_Some (nth_question (mark b i qs) j) <-> is_Some (nth_question qs j).
Proof.
  unfold nth_question. destruct (j <? 0); [ reflexivity | ].
  rewrite !lookup_lt_is_Some, mark_length. reflexivity.
Qed.

Lemma nth_question_in_range qs j :
  0 <= j < Z.of_nat (length qs) -> is_Some (nth_question qs j).
Proof.
  intros Hj. unfold nth_question.
  destruct (j <? 0) eqn:E; [ apply Z.ltb_lt in E; lia | ].
  apply lookup_lt_is_Some. lia.
Qed.

Lemma clamp_in_range total index :
  1 <= total -> 0 <= clamp total index <= total - 1.
Proof. unfold clamp. lia. Qed.

(** Navigation keeps the number of questions and the recorded total. *)
Lemma navigate_keeps_shape direction st :
  totalQuestions (navigateQuestions direction st) = totalQuestions st
  /\ length (questions (navigateQuestions direction st)) = length (questions st).
Proof. unfold navigateQuestions. simpl. by rewrite !mark_length. Qed.

(** In range, the version of sidebar.js does not throw and agrees with the
    controller's. *)
Lemma sidebar_agrees direction st :
  totalQuestions st = Z.of_nat (length (questions st)) ->
  0 <= currentQuestionIndex st <= totalQuestions st - 1 ->
  sidebar_navigateQuestions direction st = Returns (navigateQuestions direction st).
Proof.
  intros Hn Hcur. unfold sidebar_navigateQuestions, navigateQuestions.
  destruct (nth_question_in_range (questions st) (currentQuestionIndex st))
    as [q ->]; [ lia | ].
  set (index := clamp (totalQuestions st) (currentQuestionIndex st + direction)).
  assert (Hidx : 0 <= index <= totalQuestions st - 1)
    by (apply clamp_in_range; lia).
  destruct (proj2 (nth_question_mark false (currentQuestionIndex st) index (questions st)))
    as [q' ->]; [ apply nth_question_in_range; lia | reflexivity ].
Qed.

(** C7. In a quiz of [N] questions with the current index in [0, N-1]:
    next moves to [min (N-1) (current+1)], previous to
    [max 0 (current-1)]; previous at 0 stays at 0 and next at [N-1] stays
    at [N-1]; both results lie in [0, N-1]; and neither version of the
    function throws (the one of sidebar.js returns the same state as the
    controller's). *)
Theorem C7_navigation_bounds (st : QuizState) :
  totalQuestions st = Z.of_nat (length (questions st)) ->
  0 <= currentQuestionIndex st <= totalQuestions st - 1 ->
  currentQuestionIndex (next st)
    = Z.min (totalQuestions st - 1) (currentQuestionIndex st + 1)
  /\ currentQuestionIndex (previous st) = Z.max 0 (currentQuestionIndex st - 1)
  /\ (currentQuestionIndex st = 0 -> currentQuestionIndex (previous st) = 0)
  /\ (currentQuestionIndex st = totalQuestions st - 1 ->
      currentQuestionIndex (next st) = totalQuestions st - 1)
  /\ 0 <= currentQuestionIndex (next st) <= totalQuestions st - 1
  /\ 0 <= currentQuestionIndex (previous st) <= totalQuestions st - 1
  /\ sidebar_navigateQuestions 1 st = Returns (next st)
  /\ sidebar_navigateQuestions (-1) st = Returns (previous st).
Proof.
  intros Hn Hcur.
  rewrite !(sidebar_agrees _ st Hn Hcur).
  unfold next, previous, navigateQuestions, clamp. simpl.
  repeat split; lia.
Qed.

Lemma C7_navigation_bounds_witness :
  let st := initializeQuizNavigation three_questions in
  currentQuestionIndex (previous st) = 0
  /\ currentQuestionIndex (next st) = 1
  /\ currentQuestionIndex (next (next (next (next (next st))))) = 2
  /\ sidebar_navigateQuestions (-1) st = Returns (previous st).
Proof.
  intros st.
  destruct (C7_navigation_bounds st) as (Hnext & _ & Hprev & _ & _ & _ & _ & Hside).
  - reflexivity.
  - vm_compute. split; discriminate.
  - split; [ apply Hprev; reflexivity | ].
    split; [ rewrite Hnext; reflexivity | ].
    split; [ reflexivity | exact Hside ].
Defined.

(** The tally built by the loop is the number of questions answered
    correctly. *)
Lemma count_correct_from acc qs :
  foldl (fun correctAnswers q =>
           if answered_correctly q then correctAnswers + 1 else correctAnswers)
        acc qs
  = acc + Z.of_nat (length (List.filter answered_correctly qs)).
Proof.
  revert acc. induction qs as [ | q rest IH ]; intros acc; simpl.
  - lia.
  - rewrite IH. destruct (answered_correctly q); simpl; lia.
Qed.

Lemma count_correct_filter qs :
  count_correct qs = Z.of_nat (length (List.filter answered_correctly qs)).
Proof. unfold count_correct. rewrite count_correct_from. lia. Qed.

(** The comparison made by the loop is the one the spec names: the question
    counts when a choice is selected and equals the recorded correct
    choice. *)
Lemma answered_correctly_spec (q : Question) :
  answered_correctly q = true <-> chose_correct q.
Proof.
  unfold answered_correctly, chose_correct.
  destruct (selected q) as [ value | ], (correctAnswer q) as [ correct | ].
  - rewrite String.eqb_eq. split.
    + intros ->. split; [ by eexists | reflexivity ].
    + intros [_ [= ->]]. reflexivity.
  - split; [ discriminate | intros [_ [=]] ].
  - split; [ discriminate | intros [[x [=]] _] ].
  - split; [ discriminate | intros [[x [=]] _] ].
Qed.

Lemma filter_chose_correct (qs : list Question) :
  length (filter chose_correct qs) = length (List.filter answered_correctly qs).
Proof.
  induction qs as [ | q rest IH ]; [ reflexivity | ].
  rewrite filter_cons. simpl.
  destruct (decide (chose_correct q)) as [Hq | Hq];
    destruct (answered_correctly q) eqn:Ha; simpl; try (by rewrite IH).
  - apply answered_correctly_spec in Hq. congruence.
  - apply answered_correctly_spec in Ha. contradiction.
Qed.

(** C8. For a quiz of three questions: a question counts as correct exactly
    when a choice is selected and equals the recorded correct choice; the
    tally is the number of such questions; and the outcome is classified by
    it: three correct, win; two, ok; one, partial; none, fail. *)
Theorem C8_scoring_tiers (q1 q2 q3 : Question) :
  let qs := [q1; q2; q3] in
  let correct := length (filter chose_correct qs) in
  (forall q, answered_correctly q = true <-> chose_correct q)
  /\ count_correct qs = Z.of_nat correct
  /\ checkQuizAnswers qs
     = match correct with
       | 3%nat => win
       | 2%nat => ok
       | 1%nat => partial
       | _ => fail
       end.
Proof.
  intros qs correct.
  split; [ exact answered_correctly_spec | ].
  subst correct. rewrite filter_chose_correct.
  split; [ apply count_correct_filter | ].
  unfold checkQuizAnswers. rewrite count_correct_filter.
  subst qs. simpl.
  destruct (answered_correctly q1), (answered_correctly q2), (answered_correctly q3);
    reflexivity.
Qed.

Example scoring_two_of_three : checkQuizAnswers three_questions = ok.
Proof. reflexivity. Qed.

Example tiers_in_order :
  map (fun c => showQuizResultsDialog c 3) [3; 2; 1; 0] = [win; ok; partial; fail].
Proof. reflexivity. Qed.

End QuizFacts.

(** ** The flashcard parser *)

Module FlashcardFacts.
Import Api Samples.

Lemma from_first_open_app pre rest :
  "["%char ∉ pre ->
  from_first_open (pre ++ "["%char :: rest) = Some ("["%char :: rest).
Proof.
  induction pre as [ | c pre IH ]; intros Hno; simpl.
  - reflexivity.
  - destruct (Ascii.eqb_spec c "[") as [-> | _].
    + exfalso. apply Hno. left.
    + apply IH. intros Hin. apply Hno. by right.
Qed.

Lemma drop_to_close_app pre rest :
  "]"%char ∉ pre ->
  drop_to_close (pre ++ "]"%char :: rest) = Some ("]"%char :: rest).
Proof.
  induction pre as [ | c pre IH ]; intros Hno; simpl.
  - reflexivity.
  - destruct (Ascii.eqb_spec c "]") as [-> | _].
    + exfalso. apply Hno. left.
    + apply IH. intros Hin. apply Hno. by right.
Qed.

(** A bracketed text wrapped in prose that has no opening bracket before it
    and no closing bracket after it is what the pattern picks out. *)
Lemma jsonMatch_wrapped pre mid post :
  "["%char ∉ pre ->
  "]"%char ∉ post ->
  jsonMatch (pre ++ "["%char :: mid ++ "]"%char :: post)
  = Some ("["%char :: mid ++ ["]"%char]).
Proof.
  intros Hpre Hpost. unfold jsonMatch.
  rewrite (from_first_open_app pre _ Hpre).
  rewrite rev_app_distr. simpl. rewrite <- app_assoc. simpl.
  rewrite drop_to_close_app.
  - simpl. rewrite rev_involutive. reflexivity.
  - intros Hin. apply Hpost. apply list_elem_of_In. apply in_rev.
    by apply list_elem_of_In.
Qed.

Lemma get_question_of_pair q a :
  Json.get "question"
    (Json.Obj [(Json.units_of_string "question", q);
               (Json.units_of_string "answer", a)]) = Some q.
Proof. reflexivity. Qed.

Lemma get_answer_of_pair q a :
  Json.get "answer"
    (Json.Obj [(Json.units_of_string "question", q);
               (Json.units_of_string "answer", a)]) = Some a.
Proof. reflexivity. Qed.

Lemma truthy_units l : l <> [] -> Json.truthy (Some (Json.Str (Json.units_of_chars l))) = true.
Proof. destruct l; [ contradiction | reflexivity ]. Qed.

(** A fallback card passes the validation and is sent back unchanged. *)
Lemma fallback_card_valid index line :
  Js.trim_chars line <> [] ->
  valid_card (fallback_card index line) = true
  /\ normalize_card (fallback_card index line) = naive_card index line.
Proof.
  intros Hline.
  unfold valid_card, normalize_card, fallback_card, naive_card.
  rewrite get_question_of_pair, get_answer_of_pair.
  pose proof (truthy_units _ Hline) as Ha.
  assert (Hq : Json.truthy
                 (Some (Json.Str (Json.units_of_string
                                    ("Question " +:+ pretty (S index))))) = true)
    by reflexivity.
  set (q := Json.Str (Json.units_of_string _)) in *.
  set (a := Json.Str (Json.units_of_chars _)) in *.
  clearbody q a.
  unfold Json.or_else, or_empty, Json.or_else.
  rewrite !Hq, !Ha. split; reflexivity.
Qed.

Lemma validate_imap_fallback lines : forall (f : nat -> nat),
  Forall (fun line => Js.trim_chars line <> []) lines ->
  map normalize_card
    (filter (fun card => valid_card card = true)
       (imap (fun i => fallback_card (f i)) lines))
  = imap (fun i => naive_card (f i)) lines.
Proof.
  induction lines as [ | line rest IH ]; intros f Hall; [ reflexivity | ].
  inversion Hall as [ | ? ? Hline Hrest ]; subst.
  destruct (fallback_card_valid (f O) line Hline) as [Hv Hn].
  simpl. rewrite filter_cons_True by exact Hv.
  simpl. rewrite Hn. f_equal.
  apply (IH (fun i => f (S i)) Hrest).
Qed.

Lemma validate_fallback response :
  validate_flashcards (fallback_cards response) = naive_cards response.
Proof.
  unfold validate_flashcards, fallback_cards, naive_cards.
  set (lines := take 10 (filter _ (split_lines response []))).
  pose proof (validate_imap_fallback lines (fun i => i)) as Hvalid.
  cbv beta in Hvalid.
  change (fun i : nat => fallback_card i) with fallback_card in Hvalid.
  change (fun i : nat => naive_card i) with naive_card in Hvalid.
  rewrite Hvalid.
  - apply take_ge. rewrite length_imap. subst lines. rewrite length_take. lia.
  - subst lines. apply Forall_take. apply Forall_forall.
    intros line Hin. apply list_elem_of_filter in Hin. tauto.
Qed.

Lemma validate_length v : (length (validate_flashcards v) <= 10)%nat.
Proof. unfold validate_flashcards. rewrite length_take. lia. Qed.

(** The reply of the example contains a valid array of one card, but the
    bracket in its prose makes the pattern start too early: what comes back
    is the whole reply as the answer of a card called Question 1.  And a reply
    that is nothing but a valid array comes back without the items that lack
    an answer. *)
Lemma C9_embedded_array_not_returned :
  bracketed_reply = "[Note] " +:+ embedded_array
  /\ Json.parse (list_ascii_of_string embedded_array)
     = Some (Json.Arr [Json.Obj [(Json.units_of_string "question",
                                   Json.Str (Json.units_of_string "Q"));
                                  (Json.units_of_string "answer",
                                   Json.Str (Json.units_of_string "A"))]])
  /\ flashcards_of_response embedded_array
     = [{| question := Json.Str (Json.units_of_string "Q");
           answer := Json.Str (Json.units_of_string "A") |}]
  /\ flashcards_of_response bracketed_reply
     = [{| question := Json.Str (Json.units_of_string "Question 1");
           answer := Json.Str (Json.units_of_string bracketed_reply) |}]
  /\ flashcards_of_response bracketed_reply <> flashcards_of_response embedded_array
  /\ Json.parse (list_ascii_of_string incomplete_array)
     = Some (Json.Arr [Json.Obj [(Json.units_of_string "question",
                                   Json.Str (Json.units_of_string "Q"))]])
  /\ flashcards_of_response incomplete_array = [].
Proof. repeat split; try (vm_compute; reflexivity). vm_compute. discriminate. Qed.

(** C9, as the code has it. The handler gives [JSON.parse] the span from the
    first opening bracket of the reply to its last closing bracket (the whole
    reply when there is no such span).  If that text is a JSON array, the
    cards sent back are its valid items (those with a question or front and an
    answer or back), normalised and cut to ten; in particular an array wrapped
    in prose or code fences that has no opening bracket before it and no
    closing bracket after it is extracted.  If the text is some other JSON
    value, no card is sent back.  If it is not JSON, nothing is raised: the
    first ten non-blank lines of the reply come back as numbered cards.  In
    every case at most ten cards are sent back. *)
Theorem C9_flashcard_parsing (response : string) :
  let chars := list_ascii_of_string response in
  (forall items,
      Json.parse (json_candidate chars) = Some (Json.Arr items) ->
      flashcards_of_response response
      = take 10 (map normalize_card
                   (filter (fun card => valid_card card = true) items)))
  /\ (forall pre mid post items,
        chars = (pre ++ "["%char :: mid ++ "]"%char :: post)%list ->
        "["%char ∉ pre ->
        "]"%char ∉ post ->
        Json.parse ("["%char :: mid ++ ["]"%char]) = Some (Json.Arr items) ->
        flashcards_of_response response
        = take 10 (map normalize_card
                     (filter (fun card => valid_card card = true) items)))
  /\ (forall v,
        Json.parse (json_candidate chars) = Some v ->
        (forall items, v <> Json.Arr items) ->
        flashcards_of_response response = [])
  /\ (Json.parse (json_candidate chars) = None ->
      flashcards_of_response response = naive_cards chars)
  /\ (length (flashcards_of_response response) <= 10)%nat.
Proof.
  intros chars.
  assert (Hparse : forall v,
             Json.parse (json_candidate chars) = Some v ->
             parse_flashcards chars = v).
  { intros v Hv. unfold parse_flashcards, json_candidate in *.
    destruct (jsonMatch chars); rewrite Hv; reflexivity. }
  assert (Harr : forall items,
             Json.parse (json_candidate chars) = Some (Json.Arr items) ->
             flashcards_of_response response
             = take 10 (map normalize_card
                          (filter (fun card => valid_card card = true) items))).
  { intros items Hv. unfold flashcards_of_response. fold chars.
    rewrite (Hparse _ Hv). reflexivity. }
  split; [ exact Harr | ]. split; [ | split; [ | split ] ].
  - intros pre mid post items Hsplit Hpre Hpost Hv. apply Harr.
    unfold json_candidate. rewrite Hsplit, (jsonMatch_wrapped pre mid post Hpre Hpost).
    exact Hv.
  - intros v Hv Hnot. unfold flashcards_of_response. fold chars.
    rewrite (Hparse _ Hv). unfold validate_flashcards.
    destruct v; try reflexivity. exfalso. by apply (Hnot items).
  - intros Hnone. unfold flashcards_of_response. fold chars.
    replace (parse_flashcards chars) with (fallback_cards chars).
    + apply validate_fallback.
    + unfold parse_flashcards, json_candidate in *.
      destruct (jsonMatch chars); rewrite Hnone; reflexivity.
  - apply validate_length.
Qed.

Lemma C9_flashcard_parsing_witness :
  flashcards_of_response fenced_reply
  = [{| question := Json.Str (Json.units_of_string "Q");
        answer := Json.Str (Json.units_of_string "A") |}]
  /\ flashcards_of_response "Plants make food. They need light."
     = [{| question := Json.Str (Json.units_of_string "Question 1");
           answer := Json.Str (Json.units_of_string "Plants make food. They need light.") |}].
Proof.
  split.
  - destruct (C9_flashcard_parsing fenced_reply) as (_ & Hwrapped & _).
    rewrite (Hwrapped (list_ascii_of_string "Here are your cards: ```json ")
               (list_ascii_of_string (Js.qq "{'question':'Q','answer':'A'}"))
               (list_ascii_of_string " ``` Enjoy!")
               [Json.Obj [(Json.units_of_string "question",
                           Json.Str (Json.units_of_string "Q"));
                          (Json.units_of_string "answer",
                           Json.Str (Json.units_of_string "A"))]]).
    + reflexivity.
    + reflexivity.
    + apply (bool_decide_unpack _). vm_compute. exact I.
    + apply (bool_decide_unpack _). vm_compute. exact I.
    + vm_compute. reflexivity.
  - destruct (C9_flashcard_parsing "Plants make food. They need light.")
      as (_ & _ & _ & Hfallback & _).
    rewrite Hfallback; vm_compute; reflexivity.
Defined.

End FlashcardFacts.

(** ** The cache: sweep, separate keys, overwriting *)

Module SweepFacts.
Import Cache Sweep Scenarios.

Section WithPayload.

Context {Payload : Type}.
Implicit Types (st : gmap string (Entry Payload)).

Lemma lookup_foldr_delete_list st (keys : list string) k :
  foldr delete st keys !! k = if decide (k ∈ keys) then None else st !! k.
Proof.
  induction keys as [ | k' keys IH ]; simpl.
  - reflexivity.
  - destruct (decide (k = k')) as [-> | Hne].
    + rewrite lookup_delete_eq. rewrite decide_True; [ reflexivity | left ].
    + rewrite lookup_delete_ne by congruence. rewrite IH.
      destruct (decide (k ∈ keys)).
      * rewrite decide_True; [ reflexivity | by right ].
      * rewrite decide_False; [ reflexivity | ].
        intros Hin. apply elem_of_cons in Hin. tauto.
Qed.

Lemma elem_of_keysToRemove now st k :
  k ∈ keysToRemove now st <-> exists v, st !! k = Some v /\ to_remove now k v = true.
Proof.
  unfold keysToRemove. rewrite list_elem_of_fmap. split.
  - intros ([k' v] & -> & Hin). apply list_elem_of_filter in Hin as [Hr Hin].
    apply elem_of_map_to_list in Hin. eauto.
  - intros (v & Hv & Hr). exists (k, v). split; [ reflexivity | ].
    apply list_elem_of_filter. split; [ exact Hr | by apply elem_of_map_to_list ].
Qed.

Lemma lookup_clearExpiredContent now st k :
  clearExpiredContent now st !! k
  = match st !! k with
    | Some v => if to_remove now k v then None else Some v
    | None => None
    end.
Proof.
  unfold clearExpiredContent. rewrite lookup_foldr_delete_list.
  destruct (decide (k ∈ keysToRemove now st)) as [Hin | Hout].
  - apply elem_of_keysToRemove in Hin as (v & -> & ->). reflexivity.
  - destruct (st !! k) as [v | ] eqn:Hv; [ | reflexivity ].
    destruct (to_remove now k v) eqn:Hr; [ | reflexivity ].
    exfalso. apply Hout. apply elem_of_keysToRemove. eauto.
Qed.

(** X4. The sweep at start-up never changes what a later read returns: what it
    removes, the read would have treated as absent anyway. *)
Theorem sweep_then_load (now now' : Z) (videoId : option string) (type : string)
    (st : gmap string (Entry Payload)) :
  now <= now' ->
  fst (loadGeneratedContent now' videoId type (clearExpiredContent now st))
  = fst (loadGeneratedContent now' videoId type st).
Proof.
  intros Hle. unfold loadGeneratedContent.
  destruct videoId as [id | ]; [ | reflexivity ].
  destruct (String.eqb id ""); [ reflexivity | ].
  cbv zeta. rewrite lookup_clearExpiredContent.
  destruct (st !! key_of type id) as [data | ]; [ | reflexivity ].
  destruct (to_remove now (key_of type id) data) eqn:Hr.
  - unfold to_remove in Hr. apply andb_true_iff in Hr as [_ Hexp].
    apply Z.ltb_lt in Hexp.
    destruct (CACHE_EXPIRY_TIME <? now' - timestamp data) eqn:E; [ reflexivity | ].
    apply Z.ltb_ge in E. lia.
  - destruct (CACHE_EXPIRY_TIME <? now' - timestamp data); reflexivity.
Qed.

(** X5. What the sweep leaves: it only removes entries; whatever remains under
    one of its three prefixes with a non-zero timestamp is at most 24 hours
    old; an entry that is at most 24 hours old, or whose timestamp is 0, or
    whose key has none of the three prefixes, is never removed; and a second
    sweep at the same time removes nothing more. *)
Theorem sweep_result (now : Z) (st : gmap string (Entry Payload)) :
  clearExpiredContent now st ⊆ st
  /\ (forall key value,
        clearExpiredContent now st !! key = Some value ->
        swept_prefix key = true ->
        timestamp value <> 0 ->
        now - timestamp value <= 24 * 60 * 60 * 1000)
  /\ (forall key value,
        st !! key = Some value ->
        now - timestamp value <= 24 * 60 * 60 * 1000
        \/ timestamp value = 0
        \/ swept_prefix key = false ->
        clearExpiredContent now st !! key = Some value)
  /\ clearExpiredContent now (clearExpiredContent now st)
     = clearExpiredContent now st.
Proof.
  split; [ | split; [ | split ] ].
  - apply map_subseteq_spec. intros k v. rewrite lookup_clearExpiredContent.
    destruct (st !! k) as [v' | ]; [ | discriminate ].
    destruct (to_remove now k v'); [ discriminate | tauto ].
  - intros key value. rewrite lookup_clearExpiredContent.
    destruct (st !! key) as [v' | ]; [ | discriminate ].
    destruct (to_remove now key v') eqn:Hr; [ discriminate | ].
    intros [= ->] Hpre Hts. unfold to_remove in Hr. rewrite Hpre in Hr.
    destruct (timestamp value =? 0) eqn:E0; [ apply Z.eqb_eq in E0; contradiction | ].
    simpl in Hr. apply Z.ltb_ge in Hr. exact Hr.
  - intros key value Hv Hkeep. rewrite lookup_clearExpiredContent, Hv.
    unfold to_remove.
    destruct Hkeep as [Hfresh | [Hzero | Hpre]].
    + destruct (CACHE_EXPIRY_TIME <? now - timestamp value) eqn:E.
      * apply Z.ltb_lt in E. unfold CACHE_EXPIRY_TIME in E. lia.
      * rewrite andb_false_r. reflexivity.
    + rewrite Hzero. simpl. rewrite andb_false_r. reflexivity.
    + rewrite Hpre. reflexivity.
  - apply map_eq. intros k. rewrite !lookup_clearExpiredContent.
    destruct (st !! k) as [v | ]; [ | reflexivity ].
    destruct (to_remove now k v) eqn:Hr; [ reflexivity | ]. rewrite Hr. reflexivity.
Qed.

Lemma append_underscore_inj (type1 : string) : forall (type2 rest1 rest2 : string),
  plain type1 -> plain type2 ->
  type1 +:+ String "_" rest1 = type2 +:+ String "_" rest2 ->
  type1 = type2 /\ rest1 = rest2.
Proof.
  unfold plain.
  induction type1 as [ | c t1 IH ]; intros type2 rest1 rest2 H1 H2 Heq.
  - destruct type2 as [ | c2 t2 ]; simpl in *.
    + injection Heq as ->. split; reflexivity.
    + injection Heq as <- _. exfalso. apply H2. left.
  - destruct type2 as [ | c2 t2 ]; simpl in *.
    + injection Heq as -> _. exfalso. apply H1. left.
    + injection Heq as -> Heq.
      destruct (IH t2 rest1 rest2) as [-> ->]; try assumption.
      * intros Hin. apply H1. by right.
      * intros Hin. apply H2. by right.
      * split; reflexivity.
Qed.

Lemma key_of_plain_inj (type1 type2 id1 id2 : string) :
  plain type1 -> plain type2 ->
  key_of type1 id1 = key_of type2 id2 ->
  type1 = type2 /\ id1 = id2.
Proof.
  intros H1 H2 Heq. apply (append_underscore_inj type1 type2 id1 id2 H1 H2).
  unfold key_of in Heq.
  assert (Hshape : forall t i : string, t +:+ "_" +:+ i = t +:+ String "_" i).
  { intros t i. reflexivity. }
  rewrite <- !Hshape. exact Heq.
Qed.

(** X6. Saving an artifact for one (type, content identity) pair never changes
    what is read for another pair, for types whose names have no underscore
    (summary, quiz, chat). *)
Theorem save_other_pair (now now' : Z) (type1 type2 id1 id2 : string)
    (payload : Payload) (st : gmap string (Entry Payload)) :
  plain type1 -> plain type2 ->
  (type1, id1) <> (type2, id2) ->
  fst (loadGeneratedContent now' (Some id2) type2
         (saveGeneratedContent now (Some id1) type1 payload st))
  = fst (loadGeneratedContent now' (Some id2) type2 st).
Proof.
  intros H1 H2 Hne. unfold saveGeneratedContent.
  destruct (String.eqb id1 ""); [ reflexivity | ].
  cbv zeta. unfold loadGeneratedContent.
  destruct (String.eqb id2 ""); [ reflexivity | ]. cbv zeta.
  rewrite lookup_insert_ne.
  - destruct (st !! key_of type2 id2) as [data | ]; [ | reflexivity ].
    destruct (CACHE_EXPIRY_TIME <? now' - timestamp data); reflexivity.
  - intros Heq. apply Hne. apply key_of_plain_inj in Heq as [-> ->]; auto.
Qed.

(** X7. The last write wins and restarts the 24 hours: after two saves under the
    same pair, a read within 24 hours of the second returns the second
    payload, however old the first one is. *)
Theorem save_overwrites (T1 T2 t : Z) (id type : string) (p1 p2 : Payload)
    (st : gmap string (Entry Payload)) :
  id <> "" ->
  t - T2 <= 24 * 60 * 60 * 1000 ->
  fst (loadGeneratedContent t (Some id) type
         (saveGeneratedContent T2 (Some id) type p2
            (saveGeneratedContent T1 (Some id) type p1 st)))
  = Some p2
  /\ saveGeneratedContent T2 (Some id) type p2
       (saveGeneratedContent T1 (Some id) type p1 st)
     = saveGeneratedContent T2 (Some id) type p2 st.
Proof.
  intros Hid Hfresh. unfold saveGeneratedContent, loadGeneratedContent.
  destruct (String.eqb_spec id ""); [ contradiction | ]. cbv zeta.
  rewrite insert_insert_eq, lookup_insert_eq. simpl.
  destruct (CACHE_EXPIRY_TIME <? t - T2) eqn:E; [ | split; reflexivity ].
  apply Z.ltb_lt in E. unfold CACHE_EXPIRY_TIME in E. lia.
Qed.

End WithPayload.

Lemma plain_summary : plain "summary" /\ plain "quiz" /\ plain "chat".
Proof. repeat split; apply (bool_decide_unpack _); vm_compute; exact I. Qed.

(** A sweep a day after the summary was written, and a read later still. *)
Lemma sweep_then_load_witness :
  fst (loadGeneratedContent 100000001 (Some "abc123") "quiz"
         (clearExpiredContent 100000000 a_store))
  = fst (loadGeneratedContent 100000001 (Some "abc123") "quiz" a_store).
Proof.
  apply (sweep_then_load 100000000 100000001 (Some "abc123") "quiz" a_store).
  lia.
Defined.

(** Saving a summary does not change what is read for the quiz of the same
    video. *)
Lemma save_other_pair_witness :
  fst (loadGeneratedContent 100000001 (Some "abc123") "quiz"
         (saveGeneratedContent 100000000 (Some "abc123") "summary"
            "<h4>Light</h4>" a_store))
  = fst (loadGeneratedContent 100000001 (Some "abc123") "quiz" a_store).
Proof.
  apply (save_other_pair 100000000 100000001 "summary" "quiz" "abc123" "abc123"
           "<h4>Light</h4>" a_store).
  - apply plain_summary.
  - apply plain_summary.
  - intros Heq. discriminate Heq.
Defined.

(** A summary saved again a day later is served for another 24 hours. *)
Lemma save_overwrites_witness :
  fst (loadGeneratedContent 186400000 (Some "abc123") "summary"
         (saveGeneratedContent 100000000 (Some "abc123") "summary" "<h4>Light</h4>"
            (saveGeneratedContent 1000 (Some "abc123") "summary" "<h4>Plants</h4>"
               a_store)))
  = Some "<h4>Light</h4>"
  /\ saveGeneratedContent 100000000 (Some "abc123") "summary" "<h4>Light</h4>"
       (saveGeneratedContent 1000 (Some "abc123") "summary" "<h4>Plants</h4>"
          a_store)
     = saveGeneratedContent 100000000 (Some "abc123") "summary" "<h4>Light</h4>"
         a_store.
Proof.
  apply (save_overwrites 1000 100000000 186400000 "abc123" "summary"
           "<h4>Plants</h4>" "<h4>Light</h4>" a_store).
  - discriminate.
  - lia.
Defined.

End SweepFacts.

(** ** The quiz: what holds after any series of clicks *)

Module QuizUiFacts.
Import Quiz QuizUi Samples.

Lemma mark_lookup b i qs (j : nat) :
  0 <= i ->
  mark b i qs !! j
  = if decide (j = Z.to_nat i) then set_active b <$> qs !! j else qs !! j.
Proof.
  intros Hi. unfold mark.
  destruct (i <? 0) eqn:E; [ apply Z.ltb_lt in E; lia | ].
  destruct (decide (j = Z.to_nat i)) as [-> | Hne].
  - apply list_lookup_alter_eq.
  - apply list_lookup_alter_ne. congruence.
Qed.

Lemma mark_answers b i qs : answers (mark b i qs) = answers qs.
Proof.
  unfold mark, answers. destruct (i <? 0); [ reflexivity | ].
  generalize (Z.to_nat i) as n. clear i.
  induction qs as [ | q qs IH ]; intros [ | n ]; simpl; try reflexivity.
  f_equal. apply IH.
Qed.

Lemma navigate_shows_current direction st :
  shows_current st -> shows_current (navigateQuestions direction st).
Proof.
  intros (Hn & Hcur & Hact). unfold shows_current, navigateQuestions. simpl.
  rewrite !QuizFacts.mark_length.
  set (index := clamp (totalQuestions st) (currentQuestionIndex st + direction)).
  assert (Hidx : 0 <= index <= totalQuestions st - 1)
    by (apply QuizFacts.clamp_in_range; lia).
  split; [ exact Hn | ]. split; [ exact Hidx | ].
  intros i q. rewrite mark_lookup by lia.
  destruct (decide (i = Z.to_nat index)) as [-> | Hne].
  - intros Hq. destruct (mark false _ _ !! _) as [q0 | ]; [ | discriminate ].
    injection Hq as <-. simpl. split; [ lia | reflexivity ].
  - rewrite mark_lookup by lia.
    destruct (decide (i = Z.to_nat (currentQuestionIndex st))) as [-> | Hne'].
    + intros Hq. destruct (questions st !! _) as [q0 | ]; [ | discriminate ].
      injection Hq as <-. simpl. split; [ discriminate | lia ].
    + intros Hq. rewrite (Hact i q Hq). lia.
Qed.

Lemma navigate_answers direction st :
  answers (questions (navigateQuestions direction st)) = answers (questions st).
Proof. unfold navigateQuestions. simpl. by rewrite !mark_answers. Qed.

Lemma initialize_shows_current qs :
  qs <> [] ->
  Forall (fun q => active q = false) qs ->
  shows_current (initializeQuizNavigation qs).
Proof.
  intros Hne Hall. unfold shows_current, initializeQuizNavigation. simpl.
  rewrite QuizFacts.mark_length. split; [ reflexivity | ].
  split; [ destruct qs; [ contradiction | simpl; lia ] | ].
  intros i q. rewrite mark_lookup by lia.
  destruct (decide (i = Z.to_nat 0)) as [-> | Hne'].
  - intros Hq. destruct (qs !! _) as [q0 | ]; [ | discriminate ].
    injection Hq as <-. simpl. split; [ reflexivity | reflexivity ].
  - intros Hq. rewrite Forall_lookup in Hall. rewrite (Hall i q Hq).
    split; [ discriminate | lia ].
Qed.

(** X8. Whatever buttons are clicked, and how often, a quiz that starts with no
    question marked shows exactly one question, the current one, the index
    stays within the quiz, and the answers picked are not touched. *)
Theorem navigation_invariant (qs : list Question) (directions : list Z) :
  qs <> [] ->
  Forall (fun q => active q = false) qs ->
  let st := navigate_all directions (initializeQuizNavigation qs) in
  shows_current st
  /\ totalQuestions st = Z.of_nat (length qs)
  /\ answers (questions st) = answers qs.
Proof.
  intros Hne Hall.
  assert (Hgen : forall st0,
             shows_current st0 ->
             shows_current (navigate_all directions st0)
             /\ totalQuestions (navigate_all directions st0) = totalQuestions st0
             /\ answers (questions (navigate_all directions st0))
                = answers (questions st0)).
  { unfold navigate_all.
    induction directions as [ | d rest IH ]; intros st0 H0; simpl.
    - split; [ exact H0 | split; reflexivity ].
    - destruct (IH (navigateQuestions d st0)) as (H1 & H2 & H3).
      { by apply navigate_shows_current. }
      split; [ exact H1 | ]. split.
      + rewrite H2. reflexivity.
      + rewrite H3. apply navigate_answers. }
  destruct (Hgen (initializeQuizNavigation qs)) as (H1 & H2 & H3).
  { by apply initialize_shows_current. }
  cbv zeta. split; [ exact H1 | ]. split.
  - rewrite H2. reflexivity.
  - rewrite H3. unfold initializeQuizNavigation. simpl. apply mark_answers.
Qed.

(** X9. A button is disabled exactly when clicking it would not move. *)
Theorem disabled_iff_no_move (st : QuizState) :
  0 <= currentQuestionIndex st <= totalQuestions st - 1 ->
  (prevDisabled (updateNavigationButtons st) = true
   <-> currentQuestionIndex (previous st) = currentQuestionIndex st)
  /\ (nextDisabled (updateNavigationButtons st) = true
      <-> currentQuestionIndex (next st) = currentQuestionIndex st)
  /\ (totalQuestions st = 1 ->
      prevDisabled (updateNavigationButtons st) = true
      /\ nextDisabled (updateNavigationButtons st) = true).
Proof.
  intros Hcur. unfold updateNavigationButtons, previous, next, navigateQuestions, clamp.
  simpl. rewrite !Z.eqb_eq. repeat split; intros; lia.
Qed.

(** X10. [k] clicks on next from index [i] lead to [min (N-1) (i+k)], [k] clicks
    on previous to [max 0 (i-k)]. *)
Theorem repeated_clicks (st : QuizState) (k : nat) :
  0 <= currentQuestionIndex st <= totalQuestions st - 1 ->
  currentQuestionIndex (navigate_all (replicate k 1) st)
  = Z.min (totalQuestions st - 1) (currentQuestionIndex st + Z.of_nat k)
  /\ currentQuestionIndex (navigate_all (replicate k (-1)) st)
     = Z.max 0 (currentQuestionIndex st - Z.of_nat k).
Proof.
  unfold navigate_all. revert st.
  induction k as [ | k IH ]; intros st Hcur.
  - simpl. lia.
  - simpl replicate. simpl foldl.
    destruct (IH (navigateQuestions 1 st)) as [IH1 _].
    { unfold navigateQuestions, clamp. simpl. lia. }
    destruct (IH (navigateQuestions (-1) st)) as [_ IH2].
    { unfold navigateQuestions, clamp. simpl. lia. }
    rewrite IH1, IH2. unfold navigateQuestions, clamp. simpl. lia.
Qed.

Lemma percentage_100 c t :
  1 <= t < 200 -> 0 <= c <= t ->
  percentage c t = Some 100 <-> c = t.
Proof.
  intros Ht Hc. unfold percentage.
  destruct (t =? 0) eqn:E; [ apply Z.eqb_eq in E; lia | ].
  split.
  - intros [= Hq].
    destruct (Z.eq_dec c t) as [ | Hne ]; [ assumption | exfalso ].
    assert ((200 * c + t) / (2 * t) < 100).
    { apply Z.div_lt_upper_bound; lia. }
    lia.
  - intros ->. f_equal. symmetry.
    apply (Z.div_unique (200 * t + t) (2 * t) 100 t); lia.
Qed.

(** X11. For a quiz of fewer than 200 questions the tier is win exactly when
    every question is answered correctly, that is, has a selected choice
    equal to its recorded correct choice; otherwise it depends on the count
    of such questions alone, whatever the size of the quiz: two correct answers give ok, one
    gives partial, and every other count, zero or three and more, gives
    fail.  (Below 200 questions a quotient under 1 is under 0.995, so the
    rounded percentage of the doubles is 100 for a full score only, as
    here.) *)
Theorem tiers_any_size (qs : list Question) :
  (1 <= length qs < 200)%nat ->
  let correct := length (filter chose_correct qs) in
  checkQuizAnswers qs
  = if (correct =? length qs)%nat then win
    else if (correct =? 2)%nat then ok
    else if (correct =? 1)%nat then partial
    else fail.
Proof.
  intros Hlen correct. unfold checkQuizAnswers, showQuizResultsDialog.
  rewrite QuizFacts.count_correct_filter.
  rewrite <- QuizFacts.filter_chose_correct. fold correct.
  assert (Hle : (correct <= length qs)%nat).
  { subst correct. apply length_filter. }
  pose proof (percentage_100 (Z.of_nat correct) (Z.of_nat (length qs))) as Hp.
  destruct (Nat.eqb_spec correct (length qs)) as [Heq | Hne].
  - rewrite bool_decide_eq_true_2; [ reflexivity | ]. apply Hp; lia.
  - rewrite bool_decide_eq_false_2.
    + destruct (Nat.eqb_spec correct 2) as [-> | H2]; [ reflexivity | ].
      destruct (Z.eqb_spec (Z.of_nat correct) 2); [ lia | ].
      destruct (Nat.eqb_spec correct 1) as [-> | H1]; [ reflexivity | ].
      destruct (Z.eqb_spec (Z.of_nat correct) 1); [ lia | reflexivity ].
    + intros Hq. apply Hp in Hq; lia.
Qed.

(** Three clicks on next and one on previous in a quiz of three. *)
Lemma navigation_invariant_witness :
  let st := navigate_all [1; 1; 1; -1] (initializeQuizNavigation three_questions) in
  shows_current st
  /\ totalQuestions st = Z.of_nat (length three_questions)
  /\ answers (questions st) = answers three_questions.
Proof.
  apply (navigation_invariant three_questions [1; 1; 1; -1]).
  - discriminate.
  - repeat constructor.
Defined.

(** The buttons of a quiz of three that shows its first question. *)
Lemma disabled_iff_no_move_witness :
  let st := initializeQuizNavigation three_questions in
  (prevDisabled (updateNavigationButtons st) = true
   <-> currentQuestionIndex (previous st) = currentQuestionIndex st)
  /\ (nextDisabled (updateNavigationButtons st) = true
      <-> currentQuestionIndex (next st) = currentQuestionIndex st)
  /\ (totalQuestions st = 1 ->
      prevDisabled (updateNavigationButtons st) = true
      /\ nextDisabled (updateNavigationButtons st) = true).
Proof.
  apply (disabled_iff_no_move (initializeQuizNavigation three_questions)).
  simpl. lia.
Defined.

(** Five clicks in a quiz of three. *)
Lemma repeated_clicks_witness :
  let st := initializeQuizNavigation three_questions in
  currentQuestionIndex (navigate_all (replicate 5 1) st)
  = Z.min (totalQuestions st - 1) (currentQuestionIndex st + Z.of_nat 5)
  /\ currentQuestionIndex (navigate_all (replicate 5 (-1)) st)
     = Z.max 0 (currentQuestionIndex st - Z.of_nat 5).
Proof.
  apply (repeated_clicks (initializeQuizNavigation three_questions) 5).
  simpl. lia.
Defined.

(** Two right answers out of three. *)
Lemma tiers_any_size_witness :
  let correct := length (filter chose_correct three_questions) in
  checkQuizAnswers three_questions
  = if (correct =? length three_questions)%nat then win
    else if (correct =? 2)%nat then ok
    else if (correct =? 1)%nat then partial
    else fail.
Proof.
  apply (tiers_any_size three_questions).
  simpl. lia.
Defined.

End QuizUiFacts.

(** ** The flashcards: the span that is parsed, and the cards sent *)

Module SpanFacts.
Import Api.

Lemma from_first_open_Some l s :
  from_first_open l = Some s ->
  exists pre rest, l = (pre ++ "["%char :: rest)%list /\ s = "["%char :: rest
                   /\ "["%char ∉ pre.
Proof.
  induction l as [ | c t IH ]; cbn [from_first_open drop_to_close]; [ discriminate | ].
  destruct (Ascii.eqb_spec c "[") as [Hc | Hc].
  - subst c. intros [= <-]. exists [], t. repeat split. apply not_elem_of_nil.
  - intros H. destruct (IH H) as (pre & rest & -> & -> & Hpre).
    exists (c :: pre), rest. repeat split.
    intros Hin. apply elem_of_cons in Hin as [Heq | Hin]; [ congruence | by apply Hpre ].
Qed.

Lemma from_first_open_None l :
  from_first_open l = None -> "["%char ∉ l.
Proof.
  induction l as [ | c t IH ]; cbn [from_first_open drop_to_close]; [ intros _; apply not_elem_of_nil | ].
  destruct (Ascii.eqb_spec c "[") as [Hc | Hc]; [ discriminate | ].
  intros H Hin. apply elem_of_cons in Hin as [Heq | Hin]; [ congruence | by apply IH ].
Qed.

Lemma drop_to_close_Some l s :
  drop_to_close l = Some s ->
  exists pre rest, l = (pre ++ "]"%char :: rest)%list /\ s = "]"%char :: rest
                   /\ "]"%char ∉ pre.
Proof.
  induction l as [ | c t IH ]; cbn [from_first_open drop_to_close]; [ discriminate | ].
  destruct (Ascii.eqb_spec c "]") as [Hc | Hc].
  - subst c. intros [= <-]. exists [], t. repeat split. apply not_elem_of_nil.
  - intros H. destruct (IH H) as (pre & rest & -> & -> & Hpre).
    exists (c :: pre), rest. repeat split.
    intros Hin. apply elem_of_cons in Hin as [Heq | Hin]; [ congruence | by apply Hpre ].
Qed.

Lemma drop_to_close_None l :
  drop_to_close l = None -> "]"%char ∉ l.
Proof.
  induction l as [ | c t IH ]; cbn [from_first_open drop_to_close]; [ intros _; apply not_elem_of_nil | ].
  destruct (Ascii.eqb_spec c "]") as [Hc | Hc]; [ discriminate | ].
  intros H Hin. apply elem_of_cons in Hin as [Heq | Hin]; [ congruence | by apply IH ].
Qed.

(** After the first opening bracket comes everything that comes after any
    opening bracket. *)
Lemma after_first_open pre : forall rest pre' tail,
  "["%char ∉ pre ->
  (pre ++ "["%char :: rest = pre' ++ "["%char :: tail)%list ->
  exists between, rest = (between ++ tail)%list.
Proof.
  induction pre as [ | c pre IH ]; intros rest pre' tail Hno Heq.
  - destruct pre' as [ | c' pre' ]; simpl in Heq.
    + injection Heq as ->. by exists [].
    + injection Heq as _ ->. by exists (pre' ++ ["["%char])%list; rewrite <- app_assoc.
  - destruct pre' as [ | c' pre' ]; simpl in Heq.
    + injection Heq as -> _. exfalso. apply Hno. left.
    + injection Heq as _ Heq. apply (IH rest pre' tail); [ | exact Heq ].
      intros Hin. apply Hno. by right.
Qed.

(** X12. The pattern of the handler picks the text from the first opening bracket
    of the reply to the last closing bracket; it finds nothing exactly when
    no closing bracket follows an opening bracket. *)
Theorem jsonMatch_span (response : list ascii) :
  (forall span,
      jsonMatch response = Some span ->
      exists pre mid post,
        response = (pre ++ span ++ post)%list
        /\ span = ("["%char :: (mid ++ ["]"%char]))%list
        /\ ("["%char ∉ pre)
        /\ ("]"%char ∉ post))
  /\ (jsonMatch response = None <->
      ~ exists pre mid post,
          response = (pre ++ "["%char :: mid ++ "]"%char :: post)%list).
Proof.
  split.
  - intros span H. unfold jsonMatch in H.
    destruct (from_first_open response) as [ s | ] eqn:Ho; [ | discriminate ].
    apply from_first_open_Some in Ho as (pre & rest & -> & -> & Hpre).
    destruct (drop_to_close (rev rest)) as [ kept | ] eqn:Hc; [ | discriminate ].
    injection H as <-.
    apply drop_to_close_Some in Hc as (p & k & Hrev & -> & Hp).
    assert (Hrest : rest = (rev k ++ "]"%char :: rev p)%list).
    { rewrite <- (rev_involutive rest), Hrev, rev_app_distr. simpl.
      rewrite <- app_assoc. reflexivity. }
    exists pre, (rev k), (rev p). repeat split.
    + rewrite Hrest. simpl. rewrite <- !app_assoc. reflexivity.
    + exact Hpre.
    + intros Hin. apply Hp. apply list_elem_of_In. apply List.in_rev.
      by apply list_elem_of_In.
  - split.
    + intros H (pre' & mid & post & Heq). unfold jsonMatch in H.
      destruct (from_first_open response) as [ s | ] eqn:Ho.
      * apply from_first_open_Some in Ho as (pre & rest & Hr & -> & Hpre).
        destruct (drop_to_close (rev rest)) as [ kept | ] eqn:Hc; [ discriminate | ].
        apply drop_to_close_None in Hc.
        rewrite Hr in Heq.
        destruct (after_first_open pre rest pre' _ Hpre Heq) as (between & ->).
        apply Hc. apply list_elem_of_In. apply -> in_rev.
        apply list_elem_of_In. rewrite !elem_of_app. right. right. left.
      * apply from_first_open_None in Ho. apply Ho. rewrite Heq.
        rewrite elem_of_app. right. left.
    + intros Hno. destruct (jsonMatch response) as [ span | ] eqn:H; [ | reflexivity ].
      exfalso. apply Hno. unfold jsonMatch in H.
      destruct (from_first_open response) as [ s | ] eqn:Ho; [ | discriminate ].
      apply from_first_open_Some in Ho as (pre & rest & -> & -> & Hpre).
      destruct (drop_to_close (rev rest)) as [ kept | ] eqn:Hc; [ | discriminate ].
      apply drop_to_close_Some in Hc as (p & k & Hrev & -> & Hp).
      exists pre, (rev k), (rev p). f_equal. f_equal.
      rewrite <- (rev_involutive rest), Hrev, rev_app_distr. simpl.
      rewrite <- app_assoc. reflexivity.
Qed.

Lemma or_empty_truthy x :
  Json.truthy x = true -> Json.truthy (Some (or_empty x)) = true.
Proof.
  intros H. unfold or_empty, Json.or_else. rewrite H.
  destruct x as [ v | ]; [ exact H | discriminate ].
Qed.

(** X13. Whatever the provider replied, every card in the list that the
    handler hands to [res.json] has a question and an answer that are truthy
    in JavaScript's sense: no side is an empty string, [null], [false] or a
    number that is zero as a double.  (How [res.json] then writes the values
    is not part of the statement: a number too large for a double is
    [Infinity] in the list, which is truthy, and is written as [null].) *)
Theorem cards_complete (response : string) :
  Forall (fun card => Json.truthy (Some (question card)) = true
                      /\ Json.truthy (Some (answer card)) = true)
         (flashcards_of_response response).
Proof.
  unfold flashcards_of_response, validate_flashcards.
  apply Forall_take. apply Forall_fmap. apply Forall_forall.
  intros card Hin. apply list_elem_of_filter in Hin as [Hvalid _].
  unfold valid_card in Hvalid.
  apply andb_true_iff in Hvalid as [Hvalid Ha].
  apply andb_true_iff in Hvalid as [_ Hq].
  simpl. split; by apply or_empty_truthy.
Qed.

(** A side that is a number too small for a double is zero and the card is
    dropped; a side that is a number too large for a double is kept. *)
Example underflow_card_dropped :
  flashcards_of_response (Js.qq "[{'question':1e-400,'answer':'A'}]") = [].
Proof. vm_compute. reflexivity. Qed.

Example overflow_card_kept :
  flashcards_of_response (Js.qq "[{'question':1e999,'answer':'A'}]")
  = [ {| question := Json.Num (list_ascii_of_string "1e999");
         answer := Json.Str (Json.units_of_string "A") |} ].
Proof. vm_compute. reflexivity. Qed.

End SpanFacts.

(** ** The handlers: what each answer has done *)

Module EffectFacts.
Import Api Effects Samples Scenarios.

Lemma insert_bump_alter now userId w u :
  users w !! userId = Some u ->
  <[userId := bump (reset_row now u)]> (alter (reset_row now) userId (users w))
  = after_increment now userId w.
Proof.
  intros Hu. unfold after_increment, after_reset.
  apply map_eq. intros k. destruct (decide (k = userId)) as [-> | Hne].
  - rewrite lookup_insert_eq, !lookup_alter_eq, Hu. reflexivity.
  - rewrite lookup_insert_ne by congruence. by rewrite !lookup_alter_ne by congruence.
Qed.

(** The three ways through the gate. *)
Lemma quotaGate_cases now userId w :
  (users w !! userId = None
   /\ quotaGate now userId w = (inl (Res404 "User not found"), w))
  \/ (exists u, users w !! userId = Some u
      /\ enhancements_limit (reset_row now u) <= enhancements_used (reset_row now u)
      /\ quotaGate now userId w
         = (inl (Res403Limit "Daily enhancement limit reached"
                   (enhancements_used (reset_row now u))
                   (enhancements_limit (reset_row now u))),
            {| users := after_reset now userId w; trace := trace w |}))
  \/ (exists u, users w !! userId = Some u
      /\ enhancements_used (reset_row now u) < enhancements_limit (reset_row now u)
      /\ quotaGate now userId w
         = (inr tt, {| users := after_increment now userId w;
                       trace := (trace w ++ [EvIncrement userId])%list |})).
Proof.
  destruct (users w !! userId) as [ u | ] eqn:Hu.
  - right.
    destruct (Z_le_gt_dec (enhancements_limit (reset_row now u))
                (enhancements_used (reset_row now u))) as [Hle | Hgt].
    + left. exists u. repeat split; [ exact Hle | ].
      unfold quotaGate, bind, modify. 
      rewrite (ApiFacts.incrementIfAllowed_rejects userId _ (reset_row now u)); [ reflexivity | | exact Hle ].
      by rewrite ApiFacts.reset_lookup, Hu.
    + right. exists u. repeat split; [ lia | ].
      rewrite (ApiFacts.quotaGate_passes now userId w u Hu) by lia.
      by rewrite insert_bump_alter.
  - left. split; [ reflexivity | ].
    unfold quotaGate, bind, modify, incrementIfAllowed, selectUsage, bind, get_world, ret, respond.
    simpl. rewrite lookup_alter_eq, Hu. simpl.
    f_equal. destruct w as [us tr]. unfold resetDailyUsageIfNeeded. simpl in *. f_equal.
    apply map_eq. intros k. destruct (decide (k = userId)) as [-> | Hne].
    + by rewrite lookup_alter_eq, Hu.
    + by rewrite lookup_alter_ne by congruence.
Qed.


Ltac gate_cases now userId w :=
  destruct (quotaGate_cases now userId w)
    as [ [Hu Hg] | [ (u & Hu & Hlim & Hg) | (u & Hu & Hlim & Hg) ] ];
  rewrite Hg; clear Hg.

Lemma no_call_in_nil (P : string -> Prop) :
  forall message, EvProviderCall message ∈ [] -> P message.
Proof. intros m Hm. by apply elem_of_nil in Hm. Qed.

Lemma no_call_in_increment userId (P : string -> Prop) :
  forall message, EvProviderCall message ∈ [EvIncrement userId] -> P message.
Proof. intros m Hm. apply list_elem_of_singleton in Hm. discriminate. Qed.

Lemma the_call userId clean (P : string -> Prop) :
  P clean ->
  forall message,
    EvProviderCall message ∈ [EvIncrement userId; EvProviderCall clean] ->
    P message.
Proof.
  intros HP m Hm. apply elem_of_cons in Hm as [Hm | Hm]; [ discriminate | ].
  apply list_elem_of_singleton in Hm. by injection Hm as ->.
Qed.

(** An answer given before anything was done. *)
Ltac nothing_added :=
  exists []; rewrite app_nil_r; simpl;
  split; [ reflexivity | ];
  split; [ constructor | ];
  split; [ try discriminate; reflexivity | ];
  split; [ try discriminate; intros _; split; reflexivity | ];
  split; [ try discriminate; intros _; left; split; reflexivity | ];
  split; [ discriminate | apply no_call_in_nil ].

(** X14. Whatever the request, the table and the provider, the summarize handler
    adds to the log of effects nothing, one increment, or one increment
    followed by one provider call, in this order.  An answer 404 leaves the
    world as it was; an answer 403 changes at most the daily reset of the
    user's row; an answer 400 comes either before anything was done or after
    the increment alone; an answer 200 comes after the increment and the
    provider call, and the row then counts one more than after the reset.
    The text given to the provider has at least 10 characters. *)
Theorem summarize_effects (now userId : Z) (body : SummarizeBody)
    (provider : Provider) (w : World) :
  let r := fst (summarize now userId body provider w) in
  let w' := snd (summarize now userId body provider w) in
  exists added,
    trace w' = (trace w ++ added)%list
    /\ Added userId added
    /\ (status r = 404 -> w' = w)
    /\ (status r = 403 -> added = [] /\ users w' = after_reset now userId w)
    /\ (status r = 400 ->
        (added = [] /\ w' = w)
        \/ (added = [EvIncrement userId]
            /\ users w' = after_increment now userId w))
    /\ (status r = 200 ->
        (exists message, added = [EvIncrement userId; EvProviderCall message])
        /\ users w' = after_increment now userId w)
    /\ (forall message, EvProviderCall message ∈ added ->
        10 <= Z.of_nat (String.length message)).
Proof.
  unfold summarize, run, summarize_body.
  destruct (negb (includes validContentTypes (Js.or_default (contentType body) "video"))).
  { nothing_added. }
  destruct (Js.or_else (Js.or_else (transcript body) (text body)) (content body))
    as [ contentText | ].
  2: { nothing_added. }
  destruct (String.eqb contentText "").
  { nothing_added. }
  unfold bind.
  gate_cases now userId w.
  - nothing_added.
  - nothing_added.
  - set (clean := cleanContent _ contentText).
    destruct (Z.of_nat (String.length clean) <? 10) eqn:Hlen.
    + exists [EvIncrement userId]. simpl.
      split; [ reflexivity | ].
      split; [ constructor | ].
      split; [ discriminate | ].
      split; [ discriminate | ].
      split; [ intros _; right; split; reflexivity | ].
      split; [ discriminate | apply no_call_in_increment ].
    + apply Z.ltb_ge in Hlen.
      unfold callOpenAI, selectUsage, get_world, ret, respond. simpl.
      exists [EvIncrement userId; EvProviderCall clean].
      destruct (provider _) as [ summary | message ]; simpl.
      * unfold after_increment, after_reset. rewrite !lookup_alter_eq, Hu. simpl.
        rewrite <- app_assoc.
        split; [ reflexivity | ].
        split; [ constructor | ].
        split; [ discriminate | ].
        split; [ discriminate | ].
        split; [ discriminate | ].
        split; [ intros _; split; [ by exists clean | reflexivity ] | ].
        by apply the_call.
      * rewrite <- app_assoc.
        split; [ reflexivity | ].
        split; [ constructor | ].
        split; [ discriminate | ].
        split; [ discriminate | ].
        split; [ discriminate | ].
        split; [ discriminate | by apply the_call ].
Qed.

Lemma length_string_of_list_ascii (l : list ascii) :
  String.length (string_of_list_ascii l) = length l.
Proof. induction l as [ | c l IH ]; simpl; congruence. Qed.

Lemma substring0_length n s :
  (String.length (Js.substring0 n s) <= n)%nat.
Proof.
  unfold Js.substring0. rewrite length_string_of_list_ascii, length_take. lia.
Qed.

(** X15. Whatever the request, the table and the provider, the flashcards handler
    adds to the log of effects nothing, one increment, or one increment
    followed by one provider call, in this order.  An answer 404 leaves the
    world as it was; an answer 403 changes at most the daily reset of the
    user's row; an answer 400 comes either before anything was done or after
    the increment alone; an answer 200 comes after the increment and the
    provider call.  The text given to the provider has between 50 and 4000
    characters. *)
Theorem flashcards_effects (now userId : Z) (body : FlashcardsBody)
    (provider : Provider) (w : World) :
  let r := fst (flashcards now userId body provider w) in
  let w' := snd (flashcards now userId body provider w) in
  exists added,
    trace w' = (trace w ++ added)%list
    /\ Added userId added
    /\ (status r = 404 -> w' = w)
    /\ (status r = 403 -> added = [] /\ users w' = after_reset now userId w)
    /\ (status r = 400 ->
        (added = [] /\ w' = w)
        \/ (added = [EvIncrement userId]
            /\ users w' = after_increment now userId w))
    /\ (status r = 200 ->
        (exists message, added = [EvIncrement userId; EvProviderCall message])
        /\ users w' = after_increment now userId w)
    /\ (forall message, EvProviderCall message ∈ added ->
        50 <= Z.of_nat (String.length message) <= 4000).
Proof.
  unfold flashcards, run, flashcards_body.
  set (type := Js.or_default (fc_contentType body) "video").
  set (contentText := if String.eqb type "video" then _ else _).
  destruct (String.eqb contentText "").
  { nothing_added. }
  unfold bind.
  gate_cases now userId w.
  - nothing_added.
  - nothing_added.
  - set (clean := cleanFlashcardContent type contentText).
    destruct (Z.of_nat (String.length clean) <? 50) eqn:Hlen.
    + exists [EvIncrement userId]. simpl.
      split; [ reflexivity | ].
      split; [ constructor | ].
      split; [ discriminate | ].
      split; [ discriminate | ].
      split; [ intros _; right; split; reflexivity | ].
      split; [ discriminate | apply no_call_in_increment ].
    + apply Z.ltb_ge in Hlen.
      assert (Hmax : Z.of_nat (String.length clean) <= 4000).
      { pose proof (substring0_length 4000 (cleanContent type contentText)).
        unfold clean, cleanFlashcardContent. lia. }
      unfold callOpenAI, selectUsage, get_world, ret, respond. simpl.
      exists [EvIncrement userId; EvProviderCall clean].
      destruct (provider _) as [ response | message ]; simpl.
      * unfold after_increment, after_reset. rewrite !lookup_alter_eq, Hu. simpl.
        rewrite <- app_assoc.
        split; [ reflexivity | ].
        split; [ constructor | ].
        split; [ discriminate | ].
        split; [ discriminate | ].
        split; [ discriminate | ].
        split; [ intros _; split; [ by exists clean | reflexivity ] | ].
        apply the_call. lia.
      * rewrite <- app_assoc.
        split; [ reflexivity | ].
        split; [ constructor | ].
        split; [ discriminate | ].
        split; [ discriminate | ].
        split; [ discriminate | ].
        split; [ discriminate | apply the_call; lia ].
Qed.

(** X16. Served on its own, the gate has three answers only: it lets the request
    through, it answers 404, or it answers the handler's own 403 with the
    counters of the row after the daily reset.  The 403 that reports a
    refusal of [incrementUsage] is never sent: what the handler's comparison
    lets through, the increment accepts. *)
Theorem gate_answers (now userId : Z) (w : World) :
  fst (quotaGate now userId w) = inr tt
  \/ fst (quotaGate now userId w) = inl (Res404 "User not found")
  \/ exists u,
       users w !! userId = Some u
       /\ enhancements_limit (reset_row now u) <= enhancements_used (reset_row now u)
       /\ fst (quotaGate now userId w)
          = inl (Res403Limit "Daily enhancement limit reached"
                   (enhancements_used (reset_row now u))
                   (enhancements_limit (reset_row now u))).
Proof.
  destruct (quotaGate_cases now userId w)
    as [ [Hu Hg] | [ (u & Hu & Hlim & Hg) | (u & Hu & Hlim & Hg) ] ];
    rewrite Hg; simpl.
  - right. by left.
  - right. right. exists u. by repeat split.
  - by left.
Qed.

(** A user whose counter is above the limit is refused by the summarize
    handler whatever the subscription. *)
Lemma handler_check_ignores_subscription_witness :
  summarize 1000 1 (body_of_transcript a_transcript) provider_up
    (demo_world 12 premium)
  = (Res403Limit "Daily enhancement limit reached" 12 10, demo_world 12 premium).
Proof.
  apply (ApiFacts.handler_check_ignores_subscription 1000 1
           (body_of_transcript a_transcript) provider_up "video" a_transcript
           (demo_world 12 premium) (demo_row 12 premium)).
  - repeat split; try reflexivity. discriminate.
  - reflexivity.
  - simpl. unfold DAY_MS. lia.
  - simpl. lia.
Defined.

(** A page text of blanks and one word passes the gate and is then found too
    short. *)
Lemma summarize_short_after_gate_witness :
  summarize 1000 1 (body_of_page blank_page) provider_up (demo_world 3 freemium)
  = (Res400 "Content is too short or empty",
     {| users := <[1 := bump (reset_row 1000 (demo_row 3 freemium))]>
                   (alter (reset_row 1000) 1 (users (demo_world 3 freemium)));
        trace := (trace (demo_world 3 freemium) ++ [EvIncrement 1])%list |}).
Proof.
  apply (ApiFacts.summarize_short_after_gate 1000 1 (body_of_page blank_page)
           provider_up "webpage" blank_page (demo_world 3 freemium)
           (demo_row 3 freemium)).
  - repeat split; try reflexivity. discriminate.
  - vm_compute. reflexivity.
  - reflexivity.
  - simpl. lia.
Defined.

(** A flashcards request whose provider call fails. *)
Lemma flashcards_increment_before_provider_witness :
  flashcards 1000 1 (cards_of_transcript long_transcript) provider_down
    (demo_world 3 freemium)
  = (Res500 (Js.or_default (Some "OpenAI API error: service unavailable")
               "Failed to generate flashcards"),
     {| users := <[1 := bump (reset_row 1000 (demo_row 3 freemium))]>
                   (alter (reset_row 1000) 1 (users (demo_world 3 freemium)));
        trace := (trace (demo_world 3 freemium)
                  ++ [EvIncrement 1;
                      EvProviderCall (cleanFlashcardContent "video" long_transcript)])%list |}).
Proof.
  apply (ApiFacts.flashcards_increment_before_provider 1000 1
           (cards_of_transcript long_transcript) provider_down
           (demo_world 3 freemium) (demo_row 3 freemium)
           "OpenAI API error: service unavailable").
  - discriminate.
  - vm_compute. discriminate.
  - reflexivity.
  - simpl. lia.
  - reflexivity.
Defined.

End EffectFacts.

(** ** The quiz handler *)

Module QuizApiFacts.
Import Api Effects QuizApi Samples Scenarios.


Lemma truncated_cases name n v :
  (not_a_string v = true
   /\ truncated name n v = inr (name +:+ ".substring is not a function"))
  \/ (not_a_string v = false /\ exists text, truncated name n v = inl text).
Proof.
  destruct v as [ s | [ | ] text ]; simpl.
  - right. split; [ reflexivity | by eexists ].
  - left. by split.
  - right. split; [ reflexivity | by eexists ].
Qed.



(** X18. When the summary of the body is a string that is not empty, a
    transcript that is a string, or falsy, plays no part: the answer and the
    world after it are the same with any other such transcript, or with
    none.  (A truthy transcript that is no string is excluded: on it
    [substring] throws.) *)
Theorem quiz_ignores_transcript (now userId : Z) (body : QuizBody)
    (provider : QuizProvider) (w : World) (t : BodyValue) (summary : string) :
  qz_summary body = BodyString summary ->
  summary <> "" ->
  not_a_string (qz_transcript body) = false ->
  not_a_string t = false ->
  quiz now userId (with_transcript t body) provider w
  = quiz now userId body provider w.
Proof.
  intros Hs Hne Hold Hnew. unfold quiz, with_transcript. simpl.
  rewrite Hs. simpl.
  apply String.eqb_neq in Hne. rewrite Hne. simpl. rewrite !andb_false_r.
  assert (Hcut : Js.substring0 1000 summary <> "").
  { destruct summary as [ | c rest ]; [ discriminate | ].
    unfold Js.substring0. simpl. discriminate. }
  apply String.eqb_neq in Hcut.
  destruct (truncated_cases "transcript" 4000 t) as [ [H _] | [_ (t1 & ->)] ];
    [ congruence | ].
  destruct (truncated_cases "transcript" 4000 (qz_transcript body))
    as [ [H _] | [_ (t2 & ->)] ]; [ congruence | ].
  unfold quiz_content. rewrite Hcut. simpl. reflexivity.
Qed.

(** A request with a summary, sent with another transcript. *)
Lemma quiz_ignores_transcript_witness :
  quiz 1000 1 (with_transcript (BodyString "Something else altogether.") a_quiz_body)
    quiz_provider_up (demo_world 3 freemium)
  = quiz 1000 1 a_quiz_body quiz_provider_up (demo_world 3 freemium).
Proof.
  apply (quiz_ignores_transcript 1000 1 a_quiz_body quiz_provider_up
           (demo_world 3 freemium) (BodyString "Something else altogether.")
           "<h4>Plants</h4>").
  - reflexivity.
  - discriminate.
  - reflexivity.
  - reflexivity.
Defined.

(** A summary that is the number 123: the request is counted and then
    answered 500, without a call of the provider. *)
Example quiz_number_summary :
  quiz 1000 1
    {| qz_transcript := absent; qz_summary := BodyOther true "123";
       qz_difficulty := absent; qz_title := absent |}
    quiz_provider_up (demo_world 3 freemium)
  = (inl (Res500 "summary.substring is not a function"),
     {| users := {[ 1 := demo_row 4 freemium ]}; trace := [EvIncrement 1] |}).
Proof. vm_compute. reflexivity. Qed.

End QuizApiFacts.

(** ** Retries *)

Module MessagingFacts.
Import Messaging Scenarios.

Section WithResponse.

Context {R : Type}.
(** Truthiness of a response. *)
Variable truthy : R -> bool.
Variable env : Z -> Attempt R.
Variable maxRetries : Z.

Lemma backoff_S n : backoff (S n) = (backoff n ++ [1000 * Z.of_nat (S n)])%list.
Proof.
  unfold backoff. rewrite seqZ_S, fmap_app. simpl. repeat f_equal. lia.
Qed.

(** From the [n]-th attempt on, all attempts up to the last one allowed
    failing. *)
Lemma attemptSend_gives_up fuel : forall (n : nat),
  (forall k, Z.of_nat n <= k < Z.max 1 maxRetries -> transient (env k) = true) ->
  Z.of_nat n < Z.max 1 maxRetries ->
  (Z.to_nat (Z.max 1 maxRetries) <= n + fuel)%nat ->
  attemptSend truthy env maxRetries fuel (Z.of_nat n) (backoff n)
  = Some {| resolution :=
              ResolvedError "Failed to send message after multiple attempts";
            delays := backoff (Z.to_nat (Z.max 1 maxRetries) - 1) |}.
Proof.
  induction fuel as [ | fuel IH ]; intros n Hall Hn Hfuel.
  - lia.
  - simpl. rewrite Hall by lia.
    destruct (Z.of_nat n + 1 <? maxRetries) eqn:Hlt.
    + apply Z.ltb_lt in Hlt.
      replace (Z.of_nat n + 1) with (Z.of_nat (S n)) by lia.
      rewrite <- backoff_S. apply IH; [ | lia | lia ].
      intros k Hk. apply Hall. lia.
    + apply Z.ltb_ge in Hlt. do 2 f_equal. f_equal. lia.
Qed.

Lemma attemptSend_settles fuel : forall (n : nat) (k : nat),
  (n <= k)%nat ->
  (forall j, Z.of_nat n <= j < Z.of_nat k -> transient (env j) = true) ->
  transient (env (Z.of_nat k)) = false ->
  Z.of_nat k < Z.max 1 maxRetries ->
  (k < n + fuel)%nat ->
  attemptSend truthy env maxRetries fuel (Z.of_nat n) (backoff n)
  = Some {| resolution := settle truthy (env (Z.of_nat k)); delays := backoff k |}.
Proof.
  induction fuel as [ | fuel IH ]; intros n k Hnk Hall Hk Hmax Hfuel.
  - lia.
  - simpl. destruct (decide (n = k)) as [-> | Hne].
    + by rewrite Hk.
    + rewrite Hall by lia.
      assert (Hlt : (Z.of_nat n + 1 <? maxRetries) = true) by (apply Z.ltb_lt; lia).
      rewrite Hlt.
      replace (Z.of_nat n + 1) with (Z.of_nat (S n)) by lia.
      rewrite <- backoff_S. apply IH; try lia; [ | exact Hk ].
      intros j Hj. apply Hall. lia.
Qed.

(** X19. When every attempt fails, the function gives up after
    [max 1 maxRetries] attempts with its fixed error; the waits between the
    attempts were 1000, 2000, ... milliseconds. *)
Theorem retry_gives_up :
  (forall k, 0 <= k < Z.max 1 maxRetries -> transient (env k) = true) ->
  sendMessageWithTimeout truthy env maxRetries
  = Some {| resolution :=
              ResolvedError "Failed to send message after multiple attempts";
            delays := backoff (Z.to_nat (Z.max 1 maxRetries) - 1) |}.
Proof.
  intros Hall. unfold sendMessageWithTimeout.
  apply (attemptSend_gives_up _ 0%nat); [ exact Hall | lia | lia ].
Qed.

(** X20. The first attempt that does not fail decides, after the waits
    1000, 2000, ... for the failed attempts before it: the promise is
    resolved with the response when the response is truthy and with
    [{ success: true }] when it is falsy, with the error of a missing
    runtime or of a missing active tab, and it stays pending when the
    callback never comes. *)
Theorem retry_first_settled (k : nat) :
  Z.of_nat k < Z.max 1 maxRetries ->
  (forall j, 0 <= j < Z.of_nat k -> transient (env j) = true) ->
  transient (env (Z.of_nat k)) = false ->
  exists sent,
    sendMessageWithTimeout truthy env maxRetries = Some sent
    /\ delays sent = backoff k
    /\ resolution sent
       = match env (Z.of_nat k) with
         | Replied response =>
             if truthy response then ResolvedResponse response
             else ResolvedSuccess
         | NoRuntime => ResolvedError "Chrome runtime not available"
         | NoActiveTab => ResolvedError "No active tab found"
         | _ => Pending
         end.
Proof.
  intros Hmax Hall Hk. unfold sendMessageWithTimeout.
  rewrite (attemptSend_settles _ 0%nat k) by (try lia; assumption).
  eexists. split; [ reflexivity | ]. split; [ reflexivity | ].
  simpl. destruct (env (Z.of_nat k)); try reflexivity; discriminate.
Qed.

Lemma first_settled (n : nat) :
  (forall k, 0 <= k < Z.of_nat n -> transient (env k) = true)
  \/ exists k : nat,
       (k < n)%nat
       /\ (forall j, 0 <= j < Z.of_nat k -> transient (env j) = true)
       /\ transient (env (Z.of_nat k)) = false.
Proof.
  induction n as [ | n [ Hall | (k & Hk & Hbefore & Hat) ] ].
  - left. lia.
  - destruct (transient (env (Z.of_nat n))) eqn:Hn.
    + left. intros k Hk. destruct (decide (k = Z.of_nat n)) as [-> | Hne];
        [ exact Hn | apply Hall; lia ].
    + right. exists n. repeat split; [ lia | exact Hall | exact Hn ].
  - right. exists k. repeat split; [ lia | exact Hbefore | exact Hat ].
Qed.

(** X21. The function always stops making attempts, whatever happens to them and
    whatever the bound: it makes at most [max 1 maxRetries] of them, and the
    wait before the attempt number [k + 1] is [1000 * k] milliseconds, so
    the waits grow by a second each time and do not double. *)
Theorem retry_bounded :
  exists sent,
    sendMessageWithTimeout truthy env maxRetries = Some sent
    /\ Z.of_nat (length (delays sent)) < Z.max 1 maxRetries
    /\ delays sent = backoff (length (delays sent)).
Proof.
  assert (Hlen : forall n, length (backoff n) = n).
  { intros n. unfold backoff. rewrite length_fmap, length_seqZ. lia. }
  unfold sendMessageWithTimeout.
  destruct (first_settled (Z.to_nat (Z.max 1 maxRetries)))
    as [ Hall | (k & Hk & Hbefore & Hat) ].
  - rewrite (attemptSend_gives_up _ 0%nat) by (try lia; intros k Hk; apply Hall; lia).
    eexists. split; [ reflexivity | ]. simpl. rewrite Hlen. split; [ lia | reflexivity ].
  - rewrite (attemptSend_settles _ 0%nat k) by (try lia; assumption).
    eexists. split; [ reflexivity | ]. simpl. rewrite Hlen. split; [ lia | reflexivity ].
Qed.

End WithResponse.

(** Three attempts that all fail: the waits were one and two seconds. *)
Lemma retry_gives_up_witness :
  sendMessageWithTimeout nonempty always_failing 3
  = Some {| resolution :=
              ResolvedError "Failed to send message after multiple attempts";
            delays := backoff (Z.to_nat (Z.max 1 3) - 1) |}.
Proof.
  apply (retry_gives_up nonempty always_failing 3).
  intros k Hk. reflexivity.
Defined.

(** One failure, then an answer that is the empty string: the promise is
    resolved with [{ success: true }] after a wait of one second. *)
Lemma retry_first_settled_witness :
  exists sent,
    sendMessageWithTimeout nonempty answered_empty 3 = Some sent
    /\ delays sent = backoff 1
    /\ resolution sent = ResolvedSuccess.
Proof.
  apply (retry_first_settled nonempty answered_empty 3 1).
  - simpl. lia.
  - intros j Hj. unfold answered_empty.
    destruct (j <? 1) eqn:E; [ reflexivity | apply Z.ltb_ge in E; lia ].
  - reflexivity.
Defined.

(** Two failures, then an answer that is not empty. *)
Example third_attempt_answered :
  sendMessageWithTimeout nonempty third_time_lucky 3
  = Some {| resolution := ResolvedResponse "ok"; delays := [1000; 2000] |}.
Proof. vm_compute. reflexivity. Qed.

End MessagingFacts.

(** ** The generator: round trips through the cache *)

Module GeneratorFacts.
Import Cache Generator Samples Scenarios.

Lemma fresh_not_expired t T :
  t - T <= CACHE_EXPIRY_TIME -> (CACHE_EXPIRY_TIME <? t - T) = false.
Proof. intros H. apply Z.ltb_ge. lia. Qed.

Lemma truthy_not_empty id : id <> "" -> Js.truthy (Some id) = true.
Proof. intros H. simpl. by apply String.eqb_neq in H as ->. Qed.

(** X22. A summary that was generated for a video is served from the cache when
    the panel is opened on that video again within 24 hours: the second run
    sends no message, whether or not the background page can be reached, and
    shows the summary that the first run got. *)
Theorem summary_round_trip (new_URL : string -> option URL) (ui : Elements)
    (background : Message -> Reply) (runtime2 : string + (Message -> Reply))
    (chat1 chat2 : string -> Storage -> Storage)
    (now1 later1 now2 later2 : Z)
    (text1 text2 context1 context2 : string) (forceRegenerate : bool)
    (info : VideoInfo) (user1 user2 : option string) (p : Panel)
    (id html : string) (response : Answer) :
  summaryContainer ui = true ->
  summaryTextElement ui = true ->
  long_video (Some info) = false ->
  getVideoId new_URL (url info) = Some id ->
  id <> "" ->
  forceRegenerate = true
  \/ fst (loadGeneratedContent now1 (Some id) "summary" (storage p)) = None ->
  background (MsgSummarize text1 (effectiveContext context1 user1))
  = Answered (Some response) ->
  Js.truthy (r_error response) = false ->
  r_summary response = Some html ->
  html <> "" ->
  now2 - later1 <= CACHE_EXPIRY_TIME ->
  let p1 := generateSummary new_URL ui (inr background) chat1 now1 later1
              text1 forceRegenerate context1 (Some info) user1 p in
  let p2 := generateSummary new_URL ui runtime2 chat2 now2 later2
              text2 false context2 (Some info) user2 p1 in
  sent p1 = (sent p ++ [MsgSummarize text1 (effectiveContext context1 user1)])%list
  /\ summaryText p1 = AsHtml (Some html)
  /\ storage p1 !! key_of "summary" id = Some (entry_at later1 id (Some html))
  /\ sent p2 = sent p1
  /\ summaryText p2 = AsHtml (Some html).
Proof.
  intros Hc He Hlong Hid Hne Hmiss Hreply Herr Hsum Hhtml Hfresh p1 p2.
  assert (Hp1 : p1 = {| storage := <[key_of "summary" id := entry_at later1 id (Some html)]>
                           (snd (if (negb forceRegenerate && Js.truthy (Some id))%bool
                                 then loadGeneratedContent now1 (Some id) "summary" (storage p)
                                 else (None, storage p)));
                        sent := (sent p ++ [MsgSummarize text1 (effectiveContext context1 user1)])%list;
                        summaryText := AsHtml (Some html);
                        quizText := quizText p |}).
  { subst p1 p2. unfold generateSummary. rewrite Hc, Hlong. simpl negb. cbv iota.
    unfold videoId_of. rewrite Hid.
    destruct (if (negb forceRegenerate && Js.truthy (Some id))%bool
              then loadGeneratedContent now1 (Some id) "summary" (storage p)
              else (None, storage p)) as [cached st] eqn:Hcheck.
    assert (Hnone : cached = None).
    { destruct Hmiss as [-> | Hmiss].
      - simpl in Hcheck. by injection Hcheck as <- _.
      - destruct (negb forceRegenerate && Js.truthy (Some id))%bool.
        + rewrite Hcheck in Hmiss. exact Hmiss.
        + by injection Hcheck as <- _. }
    subst cached. simpl truthy_content. cbv iota.
    unfold with_sent at 1. simpl sent. rewrite Hreply, Herr, Hsum.
    unfold show_summary. rewrite He.
    rewrite (CacheFacts.save_writes later1 id "summary" (Some html)) by exact Hne.
    reflexivity. }
  assert (Hkey : storage p1 !! key_of "summary" id = Some (entry_at later1 id (Some html))).
  { rewrite Hp1. simpl. apply lookup_insert_eq. }
  split; [ by rewrite Hp1 | ]. split; [ by rewrite Hp1 | ]. split; [ exact Hkey | ].
  subst p2. unfold generateSummary. rewrite Hc, Hlong. simpl negb. cbv iota.
  unfold videoId_of. rewrite Hid. rewrite (truthy_not_empty id Hne). simpl andb.
  rewrite (CacheFacts.load_entry now2 id "summary" (storage p1) _ Hne Hkey).
  simpl timestamp. rewrite (fresh_not_expired _ _ Hfresh).
  simpl content. unfold truthy_content.
  rewrite (truthy_not_empty html Hhtml).
  unfold show_summary. rewrite He.
  unfold loadCachedQuiz.
  destruct (negb (Js.truthy (Some id)) || negb (quizContent ui))%bool; [ by rewrite Hp1 | ].
  simpl storage.
  destruct (loadGeneratedContent later2 (Some id) "quiz" _) as [cachedQuiz st'].
  destruct (truthy_content cachedQuiz); by rewrite Hp1.
Qed.


(** X23. A quiz that was generated for a video is served from the cache when
    [generateQuiz] runs for that video again within 24 hours; and since
    [generateQuiz] has no way to ask for a fresh one, the second run sends
    no message and leaves the panel and its storage exactly as the first
    run left them, whatever its arguments and whether or not the background
    page can be reached. *)
Theorem quiz_round_trip (new_URL : string -> option URL) (ui : Elements)
    (background : Message -> Reply) (runtime2 : string + (Message -> Reply))
    (chat1 chat2 : string -> Storage -> Storage)
    (now1 later1 now2 later2 : Z)
    (transcript1 summary1 transcript2 summary2 : option string)
    (context1 context2 : string)
    (info : VideoInfo) (user1 user2 : option string) (p : Panel)
    (id html : string) (response : Answer) :
  quizContainer ui = true ->
  quizContent ui = true ->
  getVideoId new_URL (url info) = Some id ->
  id <> "" ->
  fst (loadGeneratedContent now1 (Some id) "quiz" (storage p)) = None ->
  Js.truthy (Js.or_else transcript1 summary1) = true ->
  background (MsgGenerateQuiz (Js.or_default transcript1 "")
                (Js.or_default summary1 "") (effectiveContext context1 user1))
  = Answered (Some response) ->
  Js.truthy (r_error response) = false ->
  r_quiz response = Some html ->
  html <> "" ->
  now2 - later1 <= CACHE_EXPIRY_TIME ->
  let p1 := generateQuiz new_URL ui (inr background) now1 later1
              transcript1 summary1 context1 (Some info) user1 p in
  let p2 := generateQuiz new_URL ui runtime2 now2 later2
              transcript2 summary2 context2 (Some info) user2 p1 in
  sent p1 = (sent p ++ [MsgGenerateQuiz (Js.or_default transcript1 "")
                          (Js.or_default summary1 "")
                          (effectiveContext context1 user1)])%list
  /\ quizText p1 = AsHtml (Some html)
  /\ storage p1 !! key_of "quiz" id = Some (entry_at later1 id (Some html))
  /\ p2 = p1.
Proof.
  intros Hc Hq Hid Hne Hmiss Huse Hreply Herr Hquiz Hhtml Hfresh p1 p2.
  assert (Hp1 : p1 = {| storage := <[key_of "quiz" id := entry_at later1 id (Some html)]>
                           (snd (loadGeneratedContent now1 (Some id) "quiz" (storage p)));
                        sent := (sent p ++ [MsgGenerateQuiz (Js.or_default transcript1 "")
                                              (Js.or_default summary1 "")
                                              (effectiveContext context1 user1)])%list;
                        summaryText := summaryText p;
                        quizText := AsHtml (Some html) |}).
  { subst p1 p2. unfold generateQuiz. rewrite Hc, Hq. simpl orb. cbv iota.
    unfold videoId_of. rewrite Hid. rewrite (truthy_not_empty id Hne).
    destruct (loadGeneratedContent now1 (Some id) "quiz" (storage p)) as [cached st].
    simpl in Hmiss. subst cached. simpl truthy_content. cbv iota.
    assert (Hcontent : String.eqb (Js.or_default (Js.or_else transcript1 summary1) "") "" = false).
    { destruct (Js.or_else transcript1 summary1) as [ c | ]; [ | discriminate ].
      simpl in Huse |- *. destruct (String.eqb c "") eqn:E; [ discriminate | exact E ]. }
    rewrite Hcontent.
    unfold with_sent at 1. simpl sent. rewrite Hreply, Herr, Hquiz.
    rewrite (truthy_not_empty html Hhtml).
    rewrite (CacheFacts.save_writes later1 id "quiz" (Some html)) by exact Hne.
    reflexivity. }
  assert (Hkey : storage p1 !! key_of "quiz" id = Some (entry_at later1 id (Some html))).
  { rewrite Hp1. simpl. apply lookup_insert_eq. }
  split; [ by rewrite Hp1 | ]. split; [ by rewrite Hp1 | ]. split; [ exact Hkey | ].
  subst p2. unfold generateQuiz. rewrite Hc, Hq. simpl orb. cbv iota.
  unfold videoId_of. rewrite Hid. rewrite (truthy_not_empty id Hne).
  rewrite (CacheFacts.load_entry now2 id "quiz" (storage p1) _ Hne Hkey).
  simpl timestamp. rewrite (fresh_not_expired _ _ Hfresh).
  simpl content. unfold truthy_content.
  rewrite (truthy_not_empty html Hhtml).
  rewrite Hp1. reflexivity.
Qed.

(** X24. What [generateQuiz] may do to the storage: it touches no key but the
    quiz key of the video, and an entry found there afterwards is either the
    one that was there or a new one that holds a quiz that is not empty and
    for which a message was sent. *)
Theorem generateQuiz_storage (new_URL : string -> option URL) (ui : Elements)
    (runtime : string + (Message -> Reply)) (now later : Z)
    (transcript summary : option string) (context : string)
    (currentVideoInfo : option VideoInfo) (userQuiz : option string)
    (p : Panel) :
  let p' := generateQuiz new_URL ui runtime now later
              transcript summary context currentVideoInfo userQuiz p in
  (forall key,
      (forall id, videoId_of new_URL currentVideoInfo = Some id ->
                  key <> key_of "quiz" id) ->
      storage p' !! key = storage p !! key)
  /\ (forall id entry,
         videoId_of new_URL currentVideoInfo = Some id ->
         storage p' !! key_of "quiz" id = Some entry ->
         storage p !! key_of "quiz" id = Some entry
         \/ (timestamp entry = later
             /\ Js.truthy (content entry) = true
             /\ exists message, sent p' = (sent p ++ [message])%list)).
Proof.
  intros p'.
  assert (Hload : forall t,
    let out := (if Js.truthy (videoId_of new_URL currentVideoInfo)
                then loadGeneratedContent t (videoId_of new_URL currentVideoInfo)
                       "quiz" (storage p)
                else (None, storage p)) in
    (forall key,
        (forall id, videoId_of new_URL currentVideoInfo = Some id ->
                    key <> key_of "quiz" id) ->
        snd out !! key = storage p !! key)
    /\ (forall key entry, snd out !! key = Some entry -> storage p !! key = Some entry)).
  { intros t. destruct (videoId_of new_URL currentVideoInfo) as [ id | ]; [ | by split ].
    unfold loadGeneratedContent. cbn [Js.truthy].
    destruct (String.eqb id "") eqn:Hid; [ by split | ].
    cbn [negb].
    destruct (storage p !! key_of "quiz" id) as [ data | ] eqn:Hdata; [ | by split ].
    destruct (CACHE_EXPIRY_TIME <? t - timestamp data); [ | by split ].
    cbn [snd]. split.
    - intros key Hkey. apply lookup_delete_ne. intros <-. by apply (Hkey id).
    - intros key entry H. destruct (decide (key = key_of "quiz" id)) as [-> | Hne].
      + by rewrite lookup_delete_eq in H.
      + by rewrite lookup_delete_ne in H by congruence. }
  subst p'. unfold generateQuiz.
  destruct (negb (quizContainer ui) || negb (quizContent ui))%bool.
  { split; [ reflexivity | intros id entry _ H; by left ]. }
  specialize (Hload now). cbv zeta in Hload. destruct Hload as [Hother Hsub].
  destruct (if Js.truthy (videoId_of new_URL currentVideoInfo)
            then loadGeneratedContent now (videoId_of new_URL currentVideoInfo)
                   "quiz" (storage p)
            else (None, storage p)) as [cached st].
  simpl in Hother, Hsub.
  assert (Hkeep : forall q : Panel,
             storage q = st ->
             (forall key,
               (forall id, videoId_of new_URL currentVideoInfo = Some id ->
                           key <> key_of "quiz" id) ->
               storage q !! key = storage p !! key)
             /\ (forall id entry,
                   videoId_of new_URL currentVideoInfo = Some id ->
                   storage q !! key_of "quiz" id = Some entry ->
                   storage p !! key_of "quiz" id = Some entry
                   \/ (timestamp entry = later
                       /\ Js.truthy (content entry) = true
                       /\ exists message, sent q = (sent p ++ [message])%list))).
  { intros q ->. split; [ exact Hother | ]. intros id entry _ H. left. by apply Hsub. }
  destruct (truthy_content cached); [ by apply Hkeep | ].
  destruct (String.eqb _ ""); [ by apply Hkeep | ].
  destruct runtime as [ error | background ]; [ by apply Hkeep | ].
  destruct (background _) as [ error | [ response | ] ]; [ by apply Hkeep | | by apply Hkeep ].
  destruct (Js.truthy (r_error response)); [ by apply Hkeep | ].
  destruct (Js.truthy (r_quiz response)) eqn:Hquiz; [ | by apply Hkeep ].
  simpl. unfold saveGeneratedContent.
  destruct (videoId_of new_URL currentVideoInfo) as [ id | ] eqn:Hid.
  2: { split; [ exact Hother | ]. intros id entry [=]. }
  destruct (String.eqb id "") eqn:Hempty.
  { split; [ exact Hother | ]. intros id' entry _ H. left. by apply Hsub. }
  split.
  - intros key Hkey. rewrite lookup_insert_ne; [ by apply Hother | ].
    intros <-. by apply (Hkey id).
  - intros id' entry [= <-] H. rewrite lookup_insert_eq in H. injection H as <-.
    right. simpl. split; [ reflexivity | ]. split; [ exact Hquiz | by eexists ].
Qed.

(** A summary generated at noon and looked at again an hour later, when the
    background page cannot be reached. *)
Lemma summary_round_trip_witness :
  let p1 := generateSummary toy_URL whole_panel (inr background_up) no_chat
              1000 2000 a_transcript true "" (Some a_video) None empty_panel in
  let p2 := generateSummary toy_URL whole_panel (inl "offline") no_chat
              3600000 3600001 a_transcript false "" (Some a_video) None p1 in
  sent p1 = (sent empty_panel
             ++ [MsgSummarize a_transcript (effectiveContext "" None)])%list
  /\ summaryText p1 = AsHtml (Some "<h4>Plants</h4>")
  /\ storage p1 !! key_of "summary" "abc123"
     = Some (entry_at 2000 "abc123" (Some "<h4>Plants</h4>"))
  /\ sent p2 = sent p1
  /\ summaryText p2 = AsHtml (Some "<h4>Plants</h4>").
Proof.
  apply (summary_round_trip toy_URL whole_panel background_up (inl "offline")
           no_chat no_chat 1000 2000 3600000 3600001
           a_transcript a_transcript "" "" true a_video None None empty_panel
           "abc123" "<h4>Plants</h4>"
           {| r_error := None; r_summary := Some "<h4>Plants</h4>";
              r_quiz := Some "<div>Quiz</div>" |}).
  - reflexivity.
  - reflexivity.
  - reflexivity.
  - reflexivity.
  - discriminate.
  - left. reflexivity.
  - reflexivity.
  - reflexivity.
  - reflexivity.
  - discriminate.
  - unfold CACHE_EXPIRY_TIME. lia.
Defined.

(** The same for a quiz. *)
Lemma quiz_round_trip_witness :
  let p1 := generateQuiz toy_URL whole_panel (inr background_up)
              1000 2000 (Some a_transcript) None "" (Some a_video) None
              empty_panel in
  let p2 := generateQuiz toy_URL whole_panel (inl "offline")
              3600000 3600001 None None "" (Some a_video) None p1 in
  sent p1 = (sent empty_panel
             ++ [MsgGenerateQuiz (Js.or_default (Some a_transcript) "")
                   (Js.or_default None "") (effectiveContext "" None)])%list
  /\ quizText p1 = AsHtml (Some "<div>Quiz</div>")
  /\ storage p1 !! key_of "quiz" "abc123"
     = Some (entry_at 2000 "abc123" (Some "<div>Quiz</div>"))
  /\ p2 = p1.
Proof.
  apply (quiz_round_trip toy_URL whole_panel background_up (inl "offline")
           no_chat no_chat 1000 2000 3600000 3600001
           (Some a_transcript) None None None "" "" a_video None None empty_panel
           "abc123" "<div>Quiz</div>"
           {| r_error := None; r_summary := Some "<h4>Plants</h4>";
              r_quiz := Some "<div>Quiz</div>" |}).
  - reflexivity.
  - reflexivity.
  - reflexivity.
  - discriminate.
  - reflexivity.
  - reflexivity.
  - reflexivity.
  - reflexivity.
  - reflexivity.
  - discriminate.
  - unfold CACHE_EXPIRY_TIME. lia.
Defined.

End GeneratorFacts.

(** ** Cleaned content *)

Module CleanFacts.
Import Api Clean.

Lemma collapse_go_spaces in_run l :
  Forall (fun c => Js.is_space c = true -> c = " "%char) (Js.collapse_go in_run l).
Proof.
  revert in_run. induction l as [ | c t IH ]; intros in_run; simpl; [ constructor | ].
  destruct (Js.is_space c) eqn:Hc.
  - destruct in_run; [ apply IH | ]. constructor; [ reflexivity | apply IH ].
  - constructor; [ congruence | apply IH ].
Qed.

Lemma collapse_go_head l c :
  head (Js.collapse_go true l) = Some c -> Js.is_space c = false.
Proof.
  induction l as [ | c' t IH ]; simpl; [ discriminate | ].
  destruct (Js.is_space c') eqn:Hc; [ exact IH | ].
  simpl. by intros [= <-].
Qed.

Lemma collapse_go_no_double l : forall in_run a c1 c2 b,
  Js.collapse_go in_run l = (a ++ c1 :: c2 :: b)%list ->
  Js.is_space c1 = true -> Js.is_space c2 = true -> False.
Proof.
  induction l as [ | c t IH ]; intros in_run a c1 c2 b Heq H1 H2; simpl in Heq.
  - by destruct a.
  - destruct (Js.is_space c) eqn:Hc.
    + destruct in_run; [ by apply (IH true a c1 c2 b) | ].
      destruct a as [ | x a ]; simpl in Heq.
      * injection Heq as <- Heq.
        pose proof (collapse_go_head t c2) as Hhead. rewrite Heq in Hhead.
        specialize (Hhead eq_refl). congruence.
      * injection Heq as _ Heq. by apply (IH true a c1 c2 b).
    + destruct a as [ | x a ]; simpl in Heq.
      * injection Heq as <- _. congruence.
      * injection Heq as _ Heq. by apply (IH false a c1 c2 b).
Qed.

Lemma trim_start_suffix l : exists pre, l = (pre ++ Js.trim_start l)%list.
Proof.
  induction l as [ | c t [pre IH] ]; simpl; [ by exists [] | ].
  destruct (Js.is_space c); [ | by exists [] ].
  exists (c :: pre). simpl. by rewrite <- IH.
Qed.

Lemma trim_start_head l c :
  head (Js.trim_start l) = Some c -> Js.is_space c = false.
Proof.
  induction l as [ | c' t IH ]; simpl; [ discriminate | ].
  destruct (Js.is_space c') eqn:Hc; [ exact IH | ].
  simpl. by intros [= <-].
Qed.

Lemma trim_chars_infix l :
  exists pre post, l = (pre ++ Js.trim_chars l ++ post)%list
                   /\ Js.trim_start l = (Js.trim_chars l ++ post)%list.
Proof.
  unfold Js.trim_chars.
  destruct (trim_start_suffix l) as [pre Hpre].
  destruct (trim_start_suffix (rev (Js.trim_start l))) as [post Hpost].
  exists pre, (rev post).
  assert (H : Js.trim_start l
              = (rev (Js.trim_start (rev (Js.trim_start l))) ++ rev post)%list).
  { rewrite <- rev_app_distr, <- Hpost. by rewrite rev_involutive. }
  split; [ | exact H ]. by rewrite <- H.
Qed.

Lemma last_rev {A} (l : list A) : last (rev l) = head l.
Proof.
  destruct l as [ | x l ]; [ reflexivity | ].
  simpl. by rewrite last_snoc.
Qed.

Lemma trim_collapse_normalised l :
  normalised (Js.trim_chars (Js.collapse_spaces l)).
Proof.
  set (m := Js.collapse_spaces l).
  destruct (trim_chars_infix m) as (pre & post & Hm & Hstart).
  repeat split.
  - pose proof (collapse_go_spaces false l) as Hall. fold (Js.collapse_spaces l) in Hall.
    fold m in Hall. rewrite Hm in Hall.
    apply Forall_app in Hall as [_ Hall]. by apply Forall_app in Hall as [Hall _].
  - intros a c1 c2 b Heq H1 H2.
    apply (collapse_go_no_double l false (pre ++ a) c1 c2 (b ++ post)); [ | exact H1 | exact H2 ].
    fold (Js.collapse_spaces l). fold m. rewrite Hm at 1. rewrite Heq.
    by rewrite <- !app_assoc.
  - intros c Hc. apply (trim_start_head m).
    rewrite Hstart. destruct (Js.trim_chars m); [ discriminate | exact Hc ].
  - intros c Hc. unfold Js.trim_chars in Hc. rewrite last_rev in Hc.
    by apply trim_start_head in Hc.
Qed.

(** X25. The text that the summarize handler works on after cleaning, for any
    content type and any content text: white space only occurs in it as
    single spaces between other characters. *)
Theorem cleanContent_normalised (type contentText : string) :
  normalised (list_ascii_of_string (cleanContent type contentText)).
Proof.
  unfold cleanContent.
  destruct (String.eqb type "video");
    rewrite list_ascii_of_string_of_list_ascii; apply trim_collapse_normalised.
Qed.

End CleanFacts.
